(** * circuit_training / learning / train_ppo_lib.py

    A shallow embedding of [compute_init_iteration] and of the control
    skeleton of [train], with the properties of the iteration scheduler
    and of the outer training loop.

    Layout:
    - [Py]      : Python results and exceptions, as an error monad;
    - [Float64] : IEEE-754 binary64 as Python's [float] uses it (finite
                  values, round to nearest, ties to even);
    - [Scheduler] : [compute_init_iteration];
    - [Loop]    : the store of TF variables, the external services as
                  parameters, the call trace, and [train];
    - the learner's contract, test doubles for the services ([Stub]), and
      the observations made on a trace ([Observe], [Summary]);
    - the properties: rounding, the scheduler, the loop. *)

From Stdlib Require Import ZArith String List Bool Lia.
From Stdlib Require Import SpecFloat.
Import ListNotations.
Local Open Scope Z_scope.

(* ================================================================== *)
(** ** Python results *)

Module Py.

(** The exceptions that the code under study can raise, plus one
    constructor for a failure inside an external service. *)
Inductive exn : Type :=
| ZeroDivisionError
| OverflowError
| TypeError
| ServiceError (what : string).

Inductive result (A : Type) : Type :=
| Ok (a : A)
| Raise (e : exn).
Arguments Ok {A} a.
Arguments Raise {A} e.

Definition bind {A B} (r : result A) (k : A -> result B) : result B :=
  match r with
  | Ok a => k a
  | Raise e => Raise e
  end.

End Py.
Import Py.

Declare Scope py_scope.
Delimit Scope py_scope with py.
Notation "x <- c ;; k" := (Py.bind c (fun x => k))
  (at level 61, c at next level, right associativity) : py_scope.

(* ================================================================== *)
(** ** binary64

    Every finite double is an integer multiple of [2^-1074], the least
    positive subnormal.  A finite double is stored as that integer: the
    double [x] is [units x * 2^-1074].  The order on doubles is the order
    on [Z], and equality is Leibniz equality.  The sign of zero is not
    kept: [int(-0.0) == int(0.0) == 0], and no operation modelled here
    distinguishes the two zeros. *)

Module Float64.

Definition prec : Z := 53.
Definition emin : Z := -1074.
Definition emax : Z := 1024.

(** [1.0] on the grid. *)
Definition one_units : Z := 2 ^ 1074.

(** First magnitude that is no longer a finite double: [2^1024]. *)
Definition overflow_units : Z := 2 ^ (emax - emin).

(** The invariant [finite_double (units x)] is kept by every operation
    below: see [int_truediv_finite] and [float_truediv_int_bounded]. *)
Record float64 : Type := F64 { units : Z }.

(** Nearest integer to [n / d], ties to even ([0 < d]). *)
Definition rne_quot (n d : Z) : Z :=
  let q := n / d in
  let r := n mod d in
  match 2 * r ?= d with
  | Lt => q
  | Gt => q + 1
  | Eq => if Z.even q then q else q + 1
  end.

(** Exponent (relative to the grid) of the last mantissa bit kept when
    [a / d] is rounded to 53 bits: [0] below [2^53] grid units. *)
Definition round_exp (a d : Z) : Z := Z.max 0 (Z.log2 (a / d) - (prec - 1)).

(** [a / d] rounded to the nearest double, in grid units ([0 <= a],
    [0 < d]). *)
Definition round_pos (a d : Z) : Z :=
  let j := round_exp a d in
  rne_quot a (d * 2 ^ j) * 2 ^ j.

(** Sign-magnitude rounding of the rational [a / d] grid units
    ([d <> 0]). *)
Definition round_ratio (a d : Z) : Z :=
  Z.sgn a * Z.sgn d * round_pos (Z.abs a) (Z.abs d).

Definition overflows (u : Z) : bool := overflow_units <=? Z.abs u.

(** The grid points that are doubles: at most 53 significant bits. *)
Definition representable (k : Z) : Prop :=
  Z.abs k mod 2 ^ round_exp (Z.abs k) 1 = 0.

Definition finite_double (u : Z) : Prop :=
  representable u /\ Z.abs u < overflow_units.

(** [float(z)] for a Python int: correctly rounded, [OverflowError]
    ("int too large to convert to float") when the rounded value is not
    finite. *)
Definition of_int (z : Z) : result float64 :=
  let u := round_ratio (z * one_units) 1 in
  if overflows u then Raise OverflowError else Ok (F64 u).

(** [a / b] for two Python ints ([long_true_divide]): the exact quotient,
    correctly rounded. *)
Definition int_truediv (a b : Z) : result float64 :=
  if b =? 0 then Raise ZeroDivisionError
  else
    let u := round_ratio (a * one_units) b in
    if overflows u then Raise OverflowError else Ok (F64 u).

(** [x / b] for a float [x] and a Python int [b] ([float_div]): [b] is
    converted first, then tested for zero, then the IEEE division.  The
    divisor is a non-zero integer, so the quotient is no larger than [x]
    in magnitude and stays finite: see [float_truediv_int_bounded]. *)
Definition float_truediv_int (x : float64) (b : Z) : result float64 :=
  (y <- of_int b ;;
   if units y =? 0 then Raise ZeroDivisionError
   else Ok (F64 (round_ratio (units x * one_units) (units y))))%py.

(** [int(x)]: truncation toward zero. *)
Definition to_int (x : float64) : Z := Z.quot (units x) one_units.

(** The same numbers in the Standard Library's specification of IEEE-754
    arithmetic, against which the operations above are tested. *)
Definition of_spec (x : spec_float) : option Z :=
  match x with
  | S754_zero _ => Some 0
  | S754_finite s m e => Some ((if s then -1 else 1) * Zpos m * 2 ^ (e - emin))
  | S754_infinity _ | S754_nan => None
  end.

Definition spec_of_int (z : Z) : spec_float :=
  binary_normalize prec emax z 0 false.

Definition spec_of_units (u : Z) : spec_float :=
  binary_normalize prec emax u emin false.

End Float64.
Import Float64.

(* ================================================================== *)
(** ** The iteration scheduler *)

Module Scheduler.

(** [init_train_step * per_replica_batch_size]: the right operand may be
    [None], which [int.__mul__] rejects. *)
Definition int_mul_opt (a : Z) (b : option Z) : result Z :=
  match b with
  | Some b => Ok (a * b)
  | None => Raise TypeError
  end.

(** [int(init_train_step * per_replica_batch_size * num_replicas_in_sync /
         sequence_length / num_episodes_per_iteration / num_epochs)] *)
Definition compute_init_iteration
    (init_train_step sequence_length num_episodes_per_iteration num_epochs : Z)
    (per_replica_batch_size : option Z) (num_replicas_in_sync : Z) : result Z :=
  (ab <- int_mul_opt init_train_step per_replica_batch_size ;;
   let p := ab * num_replicas_in_sync in
   x1 <- int_truediv p sequence_length ;;
   x2 <- float_truediv_int x1 num_episodes_per_iteration ;;
   x3 <- float_truediv_int x2 num_epochs ;;
   Ok (to_int x3))%py.

End Scheduler.
Import Scheduler.

(* ================================================================== *)
(** ** The training loop

    [train] owns two TF variables, [train_step] and [model_id] (both
    int64), and talks to everything else through calls into code that is
    not part of this file: the agent, the learner, the variable container,
    the replay buffer, the clock, the logger and the summary writer.
    Those calls are parameters.  A call may raise; it sees the variables;
    only [learner.run()] may assign them, as the data model has it
    ("TrainStep: mutated only by the Learner", "ModelID: mutated once per
    completed iteration").  Every call is appended to a trace together
    with its outcome.  [with strategy.scope()] and [with tf.name_scope()]
    only set a context for the calls inside them and are not modelled. *)

Module Loop.

(** The variables created by [train] and shared, by reference, with the
    agent, the learner and the [variables] dict. *)
Record Store : Type := { train_step : Z; model_id : Z }.

Definition set_train_step (x : Z) (s : Store) : Store :=
  {| train_step := x; model_id := model_id s |}.

Definition set_model_id (x : Z) (s : Store) : Store :=
  {| train_step := train_step s; model_id := x |}.

Definition int64_min : Z := - 2 ^ 63.
Definition int64_max : Z := 2 ^ 63 - 1.

(** [a - b] on [numpy.int64] scalars. *)
Definition int64_sub (a b : Z) : Z :=
  (a - b - int64_min) mod 2 ^ 64 + int64_min.

(** [range(lo, hi)] *)
Definition py_range (lo hi : Z) : list Z :=
  map (fun k => lo + Z.of_nat k) (seq 0 (Z.to_nat (hi - lo))).

Inductive phase : Type := WAIT | TRAIN | PUBLISH | PURGE.

Section WithServices.

(** Contents of the collect-policy variables; Python floats used for
    timing; state of the outside world. *)
Context {P F W : Type}.

Inductive value : Type :=
| VInt (z : Z)
| VPolicy (p : P).

Inductive log_arg : Type :=
| LInt (z : Z)
| LFloat (x : F).

Inductive call : Type :=
| LogInfo (fmt : string) (args : list log_arg)
| CreateAgent (generalization : bool)
| PolicySavedModelTrigger (start interval : Z)
| ReverbVariableContainer
| Push (snapshot : list (string * value))
| ReverbReplayBuffer
| StepPerSecondLogTrigger (interval : Z)
| CircuittrainingPPOLearner
    (sequence_length num_episodes_per_iteration : Z)
    (minibatch_size : option Z) (shuffle_buffer_size num_epochs : Z)
    (allow_variable_length_episodes : bool)
| TimeNow
| WaitForData
| Run
| Clear
| SummaryScalar (name : string) (data : F) (step : Z)
| SummaryFlush.

Record event : Type := Event { ev_call : call; ev_raised : option exn }.

Record Services : Type := {
  (** every call except [time.time()] and [learner.run()] *)
  serve : call -> Store -> W -> result unit * W;
  (** [learner.run()] *)
  learner_run : Store -> W -> result unit * Store * W;
  (** [time.time()] *)
  clock : W -> F * W;
  (** current contents of [tf_agent.collect_policy.variables()] *)
  read_policy : W -> P;
  (** [t1 - t0] on Python floats *)
  float_sub : F -> F -> F;
  (** [n / t] for a [numpy.int64] [n] and a Python float [t]; division
      by zero yields an infinity or a NaN, not an exception *)
  int64_truediv : Z -> F -> F
}.

Variable sv : Services.

Record machine : Type :=
  Machine { vars : Store; world : W; trace : list event }.

Definition M (A : Type) : Type := machine -> result A * machine.

Definition ret {A} (a : A) : M A := fun m => (Ok a, m).

Definition mbind {A B} (c : M A) (k : A -> M B) : M B :=
  fun m =>
    match c m with
    | (Ok a, m') => k a m'
    | (Raise e, m') => (Raise e, m')
    end.

Definition lift {A} (r : result A) : M A := fun m => (r, m).

Definition raised {A} (r : result A) : option exn :=
  match r with Ok _ => None | Raise e => Some e end.

Definition invoke (c : call) : M unit :=
  fun m =>
    let '(r, w) := serve sv c (vars m) (world m) in
    (r, Machine (vars m) w (trace m ++ [Event c (raised r)])).

Definition invoke_run : M unit :=
  fun m =>
    let '(r, s, w) := learner_run sv (vars m) (world m) in
    (r, Machine s w (trace m ++ [Event Run (raised r)])).

Definition time_time : M F :=
  fun m =>
    let '(t, w) := clock sv (world m) in
    (Ok t, Machine (vars m) w (trace m ++ [Event TimeNow None])).

(** [v.numpy()] *)
Definition numpy (cell : Store -> Z) : M Z :=
  fun m => (Ok (cell (vars m)), m).

(** [v.assign(x)] on an int64 variable. *)
Definition assign (set : Z -> Store -> Store) (x : Z) : M unit :=
  fun m =>
    if (int64_min <=? x) && (x <=? int64_max)
    then (Ok tt, Machine (set x (vars m)) (world m) (trace m))
    else (Raise (ServiceError "int64"), m).

(** [train_utils.create_train_step()], [common.create_variable('model_id')]:
    a fresh int64 variable holding [0]. *)
Definition create_variable (set : Z -> Store -> Store) : M unit :=
  fun m => (Ok tt, Machine (set 0 (vars m)) (world m) (trace m)).

Notation "x <- c ;; k" := (mbind c (fun x => k))
  (at level 61, c at next level, right associativity).
Notation "c ;;; k" := (mbind c (fun _ => k))
  (at level 61, right associativity).

Fixpoint for_each (l : list Z) (body : Z -> M unit) : M unit :=
  match l with
  | [] => ret tt
  | i :: rest => body i ;;; for_each rest body
  end.

(** The [variables] dict, read at the time of a push:
    [{POLICY_KEY: ..., TRAIN_STEP_KEY: train_step, 'model_id': model_id}]. *)
Definition variables (s : Store) (p : P) : list (string * value) :=
  [ ("policy"%string, VPolicy p);
    ("train_step"%string, VInt (train_step s));
    ("model_id"%string, VInt (model_id s)) ].

(** [variable_container.push(variables)] *)
Definition push_variables : M unit :=
  fun m => invoke (Push (variables (vars m) (read_policy sv (world m)))) m.

(** Body of [for i in range(init_iteration, num_iterations)]. *)
Definition train_iteration (i : Z) : M unit :=
  step_val <- numpy train_step ;;
  invoke (LogInfo "Training. Iteration: %d" [LInt i]) ;;;
  start_time <- time_time ;;
  invoke WaitForData ;;;
  t1 <- time_time ;;
  let data_wait_time := float_sub sv t1 start_time in
  invoke (LogInfo "Data wait time sec: %s" [LFloat data_wait_time]) ;;;
  invoke_run ;;;
  step_now <- numpy train_step ;;
  let num_steps := int64_sub step_now step_val in
  t2 <- time_time ;;
  let run_time := float_sub sv t2 start_time in
  invoke (LogInfo "Steps per sec: %s"
            [LFloat (int64_truediv sv num_steps run_time)]) ;;;
  id_now <- numpy model_id ;;
  invoke (LogInfo "Pushing variables at model_id: %d" [LInt id_now]) ;;;
  push_variables ;;;
  invoke (LogInfo "clearing replay buffer" []) ;;;
  invoke Clear ;;;
  step_a <- numpy train_step ;;
  invoke (SummaryScalar "data_wait_time_sec" data_wait_time step_a) ;;;
  step_b <- numpy train_step ;;
  invoke (SummaryScalar "step_per_sec"
            (int64_truediv sv num_steps run_time) step_b) ;;;
  invoke SummaryFlush.

(** [train].  Arguments that are only handed on to the services
    ([root_dir], the server addresses, the tensor specs, the networks) are
    part of [W]; [num_replicas_in_sync] is [strategy.num_replicas_in_sync]
    and [shuffle_buffer_episode_len] the value of the flag of that name. *)
Definition train
    (sequence_length : Z) (rl_architecture : string)
    (per_replica_batch_size : option Z)
    (num_epochs num_iterations num_episodes_per_iteration : Z)
    (allow_variable_length_episodes : bool) (init_train_step : Z)
    (num_replicas_in_sync shuffle_buffer_episode_len : Z) : M unit :=
  init_iteration <-
    lift (compute_init_iteration init_train_step sequence_length
            num_episodes_per_iteration num_epochs per_replica_batch_size
            num_replicas_in_sync) ;;
  invoke (LogInfo "Initialize iteration at: init_iteration %s."
            [LInt init_iteration]) ;;;
  create_variable set_train_step ;;;
  assign set_train_step init_train_step ;;;
  invoke (LogInfo "Initialize train_step at %s" [LInt init_train_step]) ;;;
  create_variable set_model_id ;;;
  assign set_model_id init_iteration ;;;
  (if String.eqb rl_architecture "generalization"
   then invoke (LogInfo "Using GRL agent networks." []) ;;;
        invoke (CreateAgent true)
   else invoke (LogInfo "Using RL fully connected agent networks." []) ;;;
        invoke (CreateAgent false)) ;;;
  invoke (PolicySavedModelTrigger
            (- num_episodes_per_iteration) num_episodes_per_iteration) ;;;
  invoke ReverbVariableContainer ;;;
  push_variables ;;;
  invoke ReverbReplayBuffer ;;;
  invoke (StepPerSecondLogTrigger 200) ;;;
  invoke (CircuittrainingPPOLearner sequence_length
            num_episodes_per_iteration per_replica_batch_size
            (shuffle_buffer_episode_len * sequence_length) num_epochs
            allow_variable_length_episodes) ;;;
  for_each (py_range init_iteration num_iterations) train_iteration.

End WithServices.

Arguments Services : clear implicits.
Arguments machine : clear implicits.
Arguments call : clear implicits.
Arguments event : clear implicits.
Arguments value : clear implicits.

End Loop.
Import Loop.

(* ================================================================== *)
(** ** The learner's contract *)

(** Modelled from the spec: [CircuittrainingPPOLearner.run] lives in
    circuit_training/learning/learner.py, which is not among the sources.
    [train] never assigns [model_id] inside the loop and hands the
    variable to the learner; the state machine says "PUBLISH: ModelID
    incremented".  The test doubles take one call of [run()] to add one.
    The properties of [train] are proved for every learner and do not
    rest on this. *)
Definition learner_run_model_id (model_id_before : Z) : Z := model_id_before + 1.

(* ================================================================== *)
(** ** Test doubles for the services

    A world made of a clock and a weight counter.  The learner advances
    [train_step] by [128] (four epochs of 32 minibatches) and [model_id]
    as [learner_run_model_id] says; any call selected by [fails] raises. *)

Module Stub.

Definition world : Type := (Z * Z)%type.

Definition services (fails : call Z Z -> bool) : Services Z Z world :=
  {| serve := fun c _ w =>
       if fails c then (Raise (ServiceError "unavailable"), w) else (Ok tt, w);
     learner_run := fun s w =>
       (Ok tt,
        {| train_step := train_step s + 128;
           model_id := learner_run_model_id (model_id s) |},
        (fst w, snd w + 1));
     clock := fun w => (fst w, (fst w + 1, snd w));
     read_policy := fun w => snd w;
     float_sub := Z.sub;
     int64_truediv := Z.div |}.

Definition reliable : Services Z Z world := services (fun _ => false).

Definition summary_fails : Services Z Z world :=
  services (fun c => match c with SummaryScalar _ _ _ => true | _ => false end).

Definition boot : machine Z Z world :=
  Machine {| train_step := 0; model_id := 0 |} (0, 0) [].

End Stub.

(* ================================================================== *)
(** ** What a trace shows *)

Module Observe.

Section Events.
Context {P F : Type}.

Definition phase_of (c : call P F) : list phase :=
  match c with
  | WaitForData => [WAIT]
  | Run => [TRAIN]
  | Push _ => [PUBLISH]
  | Clear => [PURGE]
  | _ => []
  end.

(** The sequence of loop phases entered, in order. *)
Definition phases (t : list (event P F)) : list phase :=
  flat_map (fun ev => phase_of (ev_call ev)) t.

(** The [model_id] entry of a snapshot. *)
Fixpoint snapshot_model_id (snap : list (string * value P)) : list Z :=
  match snap with
  | [] => []
  | (k, VInt z) :: rest =>
      if String.eqb k "model_id" then [z] else snapshot_model_id rest
  | _ :: rest => snapshot_model_id rest
  end.

(** The [model_id] carried by each push, in order. *)
Definition pushed_model_ids (t : list (event P F)) : list Z :=
  flat_map (fun ev => match ev_call ev with
                      | Push snap => snapshot_model_id snap
                      | _ => []
                      end) t.

(** No call of the trace raised. *)
Definition clean (t : list (event P F)) : Prop :=
  Forall (fun ev => ev_raised ev = None) t.

End Events.

Definition cycle : list phase := [WAIT; TRAIN; PUBLISH; PURGE].

(** [k] full cycles. *)
Definition cycles (k : nat) : list phase := List.concat (repeat cycle k).

Definition is_prefix {A} (l1 l2 : list A) : Prop := exists l3, l2 = l1 ++ l3.

Definition phase_eq_dec (a b : phase) : {a = b} + {a <> b}.
Proof. decide equality. Defined.

End Observe.
Import Observe.

(* ================================================================== *)
(** ** Summaries of a run

    The predicates in which the effect of one iteration, of the set-up
    and of the whole of [train] on the trace is stated. *)

Module Summary.

Section Events.
Context {P F : Type}.

(** A result and the calls made to reach it agree: no call raised, or the
    last one did and its exception is the result. *)
Definition faithful {A} (r : result A) (t : list (event P F)) : Prop :=
  match r with
  | Ok _ => clean t
  | Raise e => clean t \/ exists t0 c, t = t0 ++ [Event c (Some e)] /\ clean t0
  end.

(** The first phase of [t] is a push of the snapshot of [s0]. *)
Definition initial_snapshot_pushed (s0 : Store) (t : list (event P F)) : Prop :=
  exists pre p0 o post,
    t = pre ++ Event (Push (variables s0 p0)) o :: post /\
    phases pre = [] /\ phases post = [].

End Events.

Section Runs.
Context {P F W : Type} (sv : Services P F W).

(** [learner.run()] returned and left the variables as [m'] has them. *)
Definition ran (m m' : machine P F W) : Prop :=
  exists w w', learner_run sv (vars m) w = (Ok tt, vars m', w').

(** One pass through the loop body, from [m] to [m'] with result [r],
    having made the calls [t]. *)
Definition iteration_summary (m : machine P F W) (r : result unit)
    (m' : machine P F W) (t : list (event P F)) : Prop :=
  trace m' = trace m ++ t /\ faithful r t /\
  match r with
  | Ok _ => phases t = cycle /\ ran m m' /\ pushed_model_ids t = [model_id (vars m')]
  | Raise _ =>
      is_prefix (phases t) cycle /\
      (pushed_model_ids t = [] \/
       (ran m m' /\ pushed_model_ids t = [model_id (vars m')]))
  end.

(** Everything [train] does before the loop, started in [m] with initial
    iteration [it]: either it raises, or it hands over to the loop in a
    machine [mk]. *)
Definition setup_outcome (init_train_step num_iterations it : Z)
    (m : machine P F W) (X : result unit * machine P F W) : Prop :=
  let s0 := {| train_step := init_train_step; model_id := it |} in
  (exists e m' t,
      X = (Raise e, m') /\ trace m' = trace m ++ t /\
      faithful (@Raise unit e) t /\
      (phases t = [] \/ initial_snapshot_pushed s0 t))
  \/
  (exists mk t,
      X = for_each (py_range it num_iterations) (train_iteration sv) mk /\
      vars mk = s0 /\ trace mk = trace m ++ t /\ clean t /\
      initial_snapshot_pushed s0 t).

End Runs.

End Summary.
Import Summary.

(* ================================================================== *)
(** ** More observations on a trace *)

Module Details.

Section Events.
Context {P F : Type}.

(** The snapshots pushed, in order. *)
Definition pushed_snapshots (t : list (event P F)) : list (list (string * value P)) :=
  flat_map (fun ev => match ev_call ev with
                      | Push snap => [snap]
                      | _ => []
                      end) t.

(** The [train_step] entry of a snapshot. *)
Fixpoint snapshot_train_step (snap : list (string * value P)) : list Z :=
  match snap with
  | [] => []
  | (k, VInt z) :: rest =>
      if String.eqb k "train_step" then [z] else snapshot_train_step rest
  | _ :: rest => snapshot_train_step rest
  end.

(** The loop indices announced by ['Training. Iteration: %d']. *)
Definition logged_iterations (t : list (event P F)) : list Z :=
  flat_map (fun ev => match ev_call ev with
                      | LogInfo fmt [LInt i] =>
                          if String.eqb fmt "Training. Iteration: %d" then [i] else []
                      | _ => []
                      end) t.

(** Name and step of every [tf.summary.scalar] written. *)
Definition summary_steps (t : list (event P F)) : list (string * Z) :=
  flat_map (fun ev => match ev_call ev with
                      | SummaryScalar name _ step => [(name, step)]
                      | _ => []
                      end) t.

(** The summaries that go with the snapshots [snaps]: two per snapshot, at
    the snapshot's [train_step]. *)
Definition summaries_of (snaps : list (list (string * value P))) : list (string * Z) :=
  flat_map (fun snap =>
              flat_map (fun ts => [("data_wait_time_sec"%string, ts);
                                   ("step_per_sec"%string, ts)])
                       (snapshot_train_step snap)) snaps.

Definition is_construction (c : call P F) : bool :=
  match c with
  | CreateAgent _ | PolicySavedModelTrigger _ _ | ReverbVariableContainer
  | ReverbReplayBuffer | StepPerSecondLogTrigger _
  | CircuittrainingPPOLearner _ _ _ _ _ _ => true
  | _ => false
  end.

(** The objects constructed, in order. *)
Definition constructions (t : list (event P F)) : list (call P F) :=
  filter is_construction (map ev_call t).

End Events.

Section Runs.
Context {P F W : Type} (sv : Services P F W).

(** Each snapshot holds the variables as a successful [learner.run()]
    returned them, and that call started from the variables of the
    snapshot before it ([s0] for the first). *)
Inductive run_chain (s0 : Store) : list (list (string * value P)) -> Prop :=
| chain_nil : run_chain s0 []
| chain_cons s w w' p rest :
    learner_run sv s0 w = (Ok tt, s, w') ->
    run_chain s rest ->
    run_chain s0 (variables s p :: rest).

(** One pass through the loop body, in more detail than
    [iteration_summary]. *)
Definition iteration_details (i : Z) (m : machine P F W) (r : result unit)
    (m' : machine P F W) (t : list (event P F)) : Prop :=
  trace m' = trace m ++ t /\ constructions t = [] /\
  match r with
  | Ok _ =>
      logged_iterations t = [i] /\
      exists w w' p,
        learner_run sv (vars m) w = (Ok tt, vars m', w') /\
        pushed_snapshots t = [variables (vars m') p] /\
        summary_steps t = summaries_of [variables (vars m') p]
  | Raise _ =>
      is_prefix (logged_iterations t) [i] /\
      ((pushed_snapshots t = [] /\ summary_steps t = []) \/
       exists w w' p,
         learner_run sv (vars m) w = (Ok tt, vars m', w') /\
         pushed_snapshots t = [variables (vars m') p] /\
         is_prefix (summary_steps t) (summaries_of [variables (vars m') p]))
  end.

(** The objects [train] constructs before the loop. *)
Definition constructed (sequence_length : Z) (rl_architecture : string)
    (per_replica_batch_size : option Z)
    (num_epochs num_episodes_per_iteration : Z)
    (allow_variable_length_episodes : bool)
    (shuffle_buffer_episode_len : Z) : list (call P F) :=
  [ CreateAgent (String.eqb rl_architecture "generalization");
    PolicySavedModelTrigger (- num_episodes_per_iteration) num_episodes_per_iteration;
    ReverbVariableContainer;
    ReverbReplayBuffer;
    StepPerSecondLogTrigger 200;
    CircuittrainingPPOLearner sequence_length num_episodes_per_iteration
      per_replica_batch_size (shuffle_buffer_episode_len * sequence_length)
      num_epochs allow_variable_length_episodes ].

(** The set-up, in more detail than [setup_outcome]. *)
Definition setup_details (init_train_step num_iterations it : Z)
    (expected : list (call P F))
    (m : machine P F W) (X : result unit * machine P F W) : Prop :=
  let s0 := {| train_step := init_train_step; model_id := it |} in
  (exists e m' t,
      X = (Raise e, m') /\ trace m' = trace m ++ t /\
      is_prefix (constructions t) expected /\
      logged_iterations t = [] /\ summary_steps t = [] /\
      (pushed_snapshots t = [] \/ exists p0, pushed_snapshots t = [variables s0 p0]))
  \/
  (exists mk t,
      X = for_each (py_range it num_iterations) (train_iteration sv) mk /\
      vars mk = s0 /\ trace mk = trace m ++ t /\
      constructions t = expected /\
      logged_iterations t = [] /\ summary_steps t = [] /\
      exists p0, pushed_snapshots t = [variables s0 p0]).

End Runs.

End Details.
Import Details.

(* ================================================================== *)
(** ** The dataset functions

    [broadcast_info] and [per_sequence_fn], the two functions mapped over
    the samples that Reverb delivers.  A nest is a Python structure of
    tuples, lists, named tuples and dicts with tensors at its leaves. *)

Module Dataset.

Inductive error : Type := IndexError.

Inductive outcome (A : Type) : Type :=
| Returns (a : A)
| Raises (e : error).
Arguments Returns {A} a.
Arguments Raises {A} e.

#[warnings="-register-all"]
Inductive nest (A : Type) : Type :=
| Leaf (a : A)
| Nested (items : list (nest A)).
Arguments Leaf {A} a.
Arguments Nested {A} items.

(** [tf.nest.flatten] *)
Fixpoint flatten {A} (n : nest A) : list A :=
  match n with
  | Leaf a => [a]
  | Nested items => flat_map flatten items
  end.

(** [tf.nest.map_structure] *)
Fixpoint map_structure {A B} (f : A -> B) (n : nest A) : nest B :=
  match n with
  | Leaf a => Leaf (f a)
  | Nested items => Nested (map (map_structure f) items)
  end.

(** The nest without its leaves. *)
Definition structure {A} (n : nest A) : nest unit := map_structure (fun _ => tt) n.

(** A tensor of a trajectory, "shaped (sequence_length, ...)" as the
    source assumes: its static first dimension ([x.shape[0]], [None] when
    unknown), its first dimension at run time ([tf.shape(x)[0]]) and the
    rest of it.  A tensor of rank [0], on which [x.shape[0]] raises, is
    not of this type. *)
Record tensor (D : Type) : Type :=
  Tensor { static_dim0 : option nat; dim0 : nat; payload : D }.
Arguments Tensor {D} static_dim0 dim0 payload.
Arguments static_dim0 {D} t.
Arguments dim0 {D} t.
Arguments payload {D} t.

(** A static dimension, when known, is the dimension at run time. *)
Definition consistent {D} (x : tensor D) : Prop :=
  forall k, static_dim0 x = Some k -> k = dim0 x.

(** [x or y] for an optional int [x]: [None] and [0] are falsy. *)
Definition or_else (x : option nat) (y : nat) : nat :=
  match x with
  | Some k => if Nat.eqb k 0 then y else k
  | None => y
  end.

(** [tf.repeat(t, [length])], no axis: [t] is flattened (a scalar is one
    element) and each element is repeated [length] times. *)
Definition tf_repeat {A} (t : list A) (length : nat) : list A :=
  flat_map (fun a => repeat a length) t.

Definition broadcast_info {A D} (info_traj : nest (list A) * nest (tensor D))
  : outcome (nest (list A) * nest (tensor D)) :=
  let '(info, traj) := info_traj in
  match flatten traj with
  | [] => Raises IndexError
  | first_elem :: _ =>
      let length := or_else (static_dim0 first_elem) (dim0 first_elem) in
      let info := map_structure (fun t => tf_repeat t length) info in
      Returns (info, traj)
  end.

(** [per_sequence_fn], with [tf_agent.preprocess_sequence] as a
    parameter; a sample is the pair [(info, data)] of a [ReplaySample]. *)
Definition per_sequence_fn {I D D'} (preprocess_sequence : D -> D')
    (sample : I * D) : D' * I :=
  let '(data, info) := (snd sample, fst sample) in
  let data := preprocess_sequence data in
  (data, info).

End Dataset.
Import Dataset.

(* ================================================================== *)
(** * Properties *)

(** ** Rounding to nearest, ties to even *)

Lemma rne_quot_range n d : 0 < d ->
  n / d <= rne_quot n d <= n / d + 1.
Proof.
  intros Hd. unfold rne_quot.
  destruct (2 * (n mod d) ?= d); try destruct (Z.even (n / d)); lia.
Qed.

(** The rounded quotient is within half a unit of the exact one. *)
Lemma rne_quot_half n d : 0 < d ->
  2 * Z.abs (rne_quot n d * d - n) <= d.
Proof.
  intros Hd. unfold rne_quot.
  pose proof (Z.div_mod n d ltac:(lia)) as E.
  pose proof (Z.mod_pos_bound n d Hd) as B.
  destruct (Z.compare_spec (2 * (n mod d)) d);
    try destruct (Z.even (n / d)); nia.
Qed.

Lemma rne_quot_exact k d : 0 < d -> rne_quot (k * d) d = k.
Proof.
  intros Hd. unfold rne_quot.
  rewrite Z.div_mul, Z.mod_mul by lia.
  destruct (Z.compare_spec (2 * 0) d); lia.
Qed.

Lemma rne_quot_mono n n' d : 0 < d -> n <= n' ->
  rne_quot n d <= rne_quot n' d.
Proof.
  intros Hd Hn.
  assert (Hq : n / d <= n' / d) by (apply Z.div_le_mono; lia).
  destruct (Z.eq_dec (n / d) (n' / d)) as [E|NE].
  - (* same integer part: the remainders are ordered *)
    assert (Hr : n mod d <= n' mod d).
    { pose proof (Z.div_mod n d ltac:(lia)). pose proof (Z.div_mod n' d ltac:(lia)).
      rewrite E in *. lia. }
    unfold rne_quot. rewrite E.
    destruct (Z.compare_spec (2 * (n mod d)) d);
    destruct (Z.compare_spec (2 * (n' mod d)) d);
    try destruct (Z.even (n' / d)); lia.
  - pose proof (rne_quot_range n d Hd). pose proof (rne_quot_range n' d Hd). lia.
Qed.

Lemma rne_quot_nonneg n d : 0 < d -> 0 <= n -> 0 <= rne_quot n d.
Proof.
  intros Hd Hn. rewrite <- (rne_quot_exact 0 d Hd). apply rne_quot_mono; lia.
Qed.

(** *** The rounding exponent *)

Lemma round_exp_nonneg a d : 0 <= round_exp a d.
Proof. unfold round_exp. lia. Qed.

Lemma round_exp_upper a d : 0 <= a -> 0 < d ->
  a < d * 2 ^ (round_exp a d + prec).
Proof.
  intros Ha Hd. unfold round_exp, prec.
  assert (Hq : 0 <= a / d) by (apply Z.div_pos; lia).
  assert (Hlt : a / d < 2 ^ (Z.max 0 (Z.log2 (a / d) - (53 - 1)) + 53)).
  { destruct (Z.eq_dec (a / d) 0) as [E|NE].
    - rewrite E. apply Z.pow_pos_nonneg; lia.
    - pose proof (Z.log2_spec (a / d) ltac:(lia)) as [_ H].
      eapply Z.lt_le_trans; [exact H|].
      apply Z.pow_le_mono_r; lia. }
  set (K := 2 ^ _) in *.
  pose proof (Z.div_mod a d ltac:(lia)). pose proof (Z.mod_pos_bound a d Hd). nia.
Qed.

Lemma round_exp_lower a d : 0 <= a -> 0 < d -> 0 < round_exp a d ->
  d * 2 ^ (round_exp a d + (prec - 1)) <= a.
Proof.
  intros Ha Hd. unfold round_exp, prec. intros Hj.
  assert (Hq : 0 < a / d).
  { destruct (Z.eq_dec (a / d) 0) as [E|NE].
    - rewrite E in Hj. simpl in Hj. lia.
    - pose proof (Z.div_pos a d Ha Hd). lia. }
  pose proof (Z.log2_spec (a / d) Hq) as [H _].
  replace (Z.max 0 (Z.log2 (a / d) - (53 - 1)) + (53 - 1)) with (Z.log2 (a / d)) by lia.
  set (K := 2 ^ _) in *.
  pose proof (Z.div_mod a d ltac:(lia)). pose proof (Z.mod_pos_bound a d Hd). nia.
Qed.

Lemma round_exp_mono a a' d : 0 <= a -> 0 < d -> a <= a' ->
  round_exp a d <= round_exp a' d.
Proof.
  intros Ha Hd Hle. unfold round_exp.
  assert (a / d <= a' / d) by (apply Z.div_le_mono; lia).
  pose proof (Z.log2_le_mono (a / d) (a' / d) ltac:(lia)). lia.
Qed.


(** *** Rounding a non-negative rational *)

Lemma round_exp_scale k d : 0 < d -> round_exp (k * d) d = round_exp k 1.
Proof. intros Hd. unfold round_exp. now rewrite Z.div_mul, Z.div_1_r by lia. Qed.

Lemma round_pos_nonneg a d : 0 <= a -> 0 < d -> 0 <= round_pos a d.
Proof.
  intros Ha Hd. unfold round_pos.
  pose proof (round_exp_nonneg a d).
  apply Z.mul_nonneg_nonneg; [|apply Z.pow_nonneg; lia].
  apply rne_quot_nonneg; [|lia].
  apply Z.mul_pos_pos; [lia|apply Z.pow_pos_nonneg; lia].
Qed.

Lemma round_pos_exact k d : 0 <= k -> 0 < d -> representable k ->
  round_pos (k * d) d = k.
Proof.
  intros Hk Hd Hr. unfold representable in Hr. rewrite Z.abs_eq in Hr by lia.
  unfold round_pos. rewrite round_exp_scale by lia.
  set (j := round_exp k 1) in *.
  assert (Hp : 0 < 2 ^ j) by (apply Z.pow_pos_nonneg; [lia|apply round_exp_nonneg]).
  apply Z.div_exact in Hr; [|lia].
  set (c := k / 2 ^ j) in *.
  replace (k * d) with (c * (d * 2 ^ j)) by (rewrite Hr at 1; ring).
  rewrite rne_quot_exact by nia. lia.
Qed.

(** The mantissa kept by [round_pos] has at most 53 bits, or is [2^53]. *)
Lemma round_pos_mantissa a d : 0 <= a -> 0 < d ->
  0 <= rne_quot a (d * 2 ^ round_exp a d) <= 2 ^ prec.
Proof.
  intros Ha Hd.
  pose proof (round_exp_nonneg a d) as Hj.
  assert (Hp : 0 < 2 ^ round_exp a d) by (apply Z.pow_pos_nonneg; lia).
  assert (HD : 0 < d * 2 ^ round_exp a d) by nia.
  split; [apply rne_quot_nonneg; lia|].
  rewrite <- (rne_quot_exact (2 ^ prec) _ HD).
  apply rne_quot_mono; [lia|].
  pose proof (round_exp_upper a d Ha Hd) as H.
  rewrite Z.pow_add_r in H by (unfold prec; lia). nia.
Qed.

Lemma round_pos_mantissa_normal a d : 0 <= a -> 0 < d -> 0 < round_exp a d ->
  2 ^ (prec - 1) <= rne_quot a (d * 2 ^ round_exp a d).
Proof.
  intros Ha Hd Hj.
  assert (Hp : 0 < 2 ^ round_exp a d) by (apply Z.pow_pos_nonneg; lia).
  assert (HD : 0 < d * 2 ^ round_exp a d) by nia.
  rewrite <- (rne_quot_exact (2 ^ (prec - 1)) _ HD).
  apply rne_quot_mono; [lia|].
  pose proof (round_exp_lower a d Ha Hd Hj) as H.
  rewrite Z.pow_add_r in H by (unfold prec; lia). nia.
Qed.

Lemma round_pos_mono a a' d : 0 <= a -> 0 < d -> a <= a' ->
  round_pos a d <= round_pos a' d.
Proof.
  intros Ha Hd Hle.
  pose proof (round_exp_mono a a' d Ha Hd Hle) as Hj.
  pose proof (round_exp_nonneg a d) as Hj0.
  unfold round_pos.
  destruct (Z.eq_dec (round_exp a d) (round_exp a' d)) as [E|NE].
  - rewrite <- E. apply Z.mul_le_mono_nonneg_r; [apply Z.pow_nonneg; lia|].
    apply rne_quot_mono; [|lia].
    apply Z.mul_pos_pos; [lia|apply Z.pow_pos_nonneg; lia].
  - (* a' is rounded at a coarser exponent: a power of two lies between *)
    pose proof (round_pos_mantissa a d Ha Hd) as [_ Hu].
    pose proof (round_pos_mantissa_normal a' d ltac:(lia) Hd ltac:(lia)) as Hl.
    set (m := rne_quot a _) in *. set (m' := rne_quot a' _) in *.
    assert (Hp : 0 < 2 ^ round_exp a d) by (apply Z.pow_pos_nonneg; lia).
    replace (round_exp a' d) with (round_exp a d + 1 + (round_exp a' d - round_exp a d - 1)) by lia.
    rewrite !Z.pow_add_r by lia.
    assert (Hq : 1 <= 2 ^ (round_exp a' d - round_exp a d - 1))
      by (apply (Z.pow_le_mono_r 2 0); lia).
    set (q := 2 ^ (round_exp a' d - round_exp a d - 1)) in *.
    change (2 ^ prec) with (2 * 2 ^ (prec - 1)) in Hu.
    change (2 ^ 1) with 2.
    set (K := 2 ^ (prec - 1)) in *. set (p := 2 ^ round_exp a d) in *.
    apply Z.le_trans with (2 * K * p); [nia|].
    apply Z.le_trans with (m' * (p * 2)); [nia|].
    assert (0 <= m' * (p * 2)) by nia.
    replace (m' * (p * 2 * q)) with (m' * (p * 2) * q) by ring. nia.
Qed.

Lemma representable_scaled m t : 0 <= m <= 2 ^ prec -> 0 <= t ->
  representable (m * 2 ^ t).
Proof.
  intros Hm Ht. unfold representable.
  assert (Hp : 0 < 2 ^ t) by (apply Z.pow_pos_nonneg; lia).
  rewrite Z.abs_eq by nia.
  destruct (Z.eq_dec m 0) as [->|Hm0]; [now rewrite Z.mul_0_l, Zmod_0_l|].
  unfold round_exp. rewrite Z.div_1_r, Z.log2_mul_pow2 by lia.
  destruct (Z.eq_dec m (2 ^ prec)) as [->|Hne].
  - change (Z.log2 (2 ^ prec)) with 53. unfold prec.
    replace (Z.max 0 (t + 53 - (53 - 1))) with (t + 1) by lia.
    replace (2 ^ 53 * 2 ^ t) with (2 ^ 52 * 2 ^ (t + 1))
      by (rewrite (Z.pow_add_r 2 t 1) by lia; ring).
    apply Z.mod_mul. apply Z.pow_nonzero; lia.
  - assert (Hl : Z.log2 m < prec) by (apply Z.log2_lt_pow2; lia).
    pose proof (Z.log2_nonneg m).
    set (e := Z.max 0 (t + Z.log2 m - (prec - 1))).
    assert (He : 0 <= e <= t) by (unfold e, prec in *; lia).
    replace (m * 2 ^ t) with (m * 2 ^ (t - e) * 2 ^ e)
      by (rewrite <- Z.mul_assoc, <- Z.pow_add_r by lia; f_equal; f_equal; lia).
    apply Z.mod_mul. apply Z.pow_nonzero; lia.
Qed.

Lemma round_pos_representable a d : 0 <= a -> 0 < d ->
  representable (round_pos a d).
Proof.
  intros Ha Hd. unfold round_pos.
  apply representable_scaled;
    [apply round_pos_mantissa; lia | apply round_exp_nonneg].
Qed.

(** Rounding never crosses a representable number. *)
Lemma round_pos_lower_bound k a d : 0 <= k -> 0 < d -> representable k ->
  k * d <= a -> k <= round_pos a d.
Proof.
  intros Hk Hd Hr Hle. rewrite <- (round_pos_exact k d Hk Hd Hr).
  apply round_pos_mono; nia.
Qed.

Lemma round_pos_upper_bound k a d : 0 <= a -> 0 < d -> representable k ->
  a <= k * d -> round_pos a d <= k.
Proof.
  intros Ha Hd Hr Hle. assert (0 <= k) by nia.
  rewrite <- (round_pos_exact k d ltac:(lia) Hd Hr).
  apply round_pos_mono; nia.
Qed.

(** In the normal range the result exceeds the exact quotient by at most
    one part in [2^53]. *)
Lemma round_pos_relative a d : 0 < d -> d * 2 ^ (prec - 1) <= a ->
  round_pos a d * d * 2 ^ prec <= a * (2 ^ prec + 1).
Proof.
  intros Hd Hn.
  assert (Ha : 0 <= a) by (assert (0 < 2 ^ (prec - 1)) by (apply Z.pow_pos_nonneg; unfold prec; lia); nia).
  unfold round_pos.
  pose proof (round_exp_nonneg a d) as Hj.
  set (j := round_exp a d) in *.
  assert (Hp : 0 < 2 ^ j) by (apply Z.pow_pos_nonneg; lia).
  assert (HD : 0 < d * 2 ^ j) by nia.
  pose proof (rne_quot_half a _ HD) as Hh.
  set (m := rne_quot a _) in *.
  assert (HN : d * 2 ^ j * 2 ^ (prec - 1) <= a).
  { destruct (Z.eq_dec j 0) as [E|NE].
    - rewrite E. change (2 ^ 0) with 1. lia.
    - pose proof (round_exp_lower a d Ha Hd ltac:(fold j; lia)) as H.
      fold j in H. rewrite Z.pow_add_r in H by (unfold prec; lia). lia. }
  change (2 ^ prec) with (2 * 2 ^ (prec - 1)).
  set (K := 2 ^ (prec - 1)) in *. set (D := d * 2 ^ j) in *.
  replace (m * 2 ^ j * d) with (m * D) by (unfold D; ring).
  assert (0 < K) by (apply Z.pow_pos_nonneg; unfold prec; lia).
  assert (2 * (m * D - a) <= D) by lia.
  nia.
Qed.

Lemma round_pos_zero d : 0 < d -> round_pos 0 d = 0.
Proof.
  intros Hd. apply (round_pos_exact 0 d); [lia|lia|].
  unfold representable. apply Zmod_0_l.
Qed.

(** *** Signed rounding *)

Lemma round_ratio_pos_den a d : 0 < d ->
  round_ratio a d = Z.sgn a * round_pos (Z.abs a) d.
Proof.
  intros Hd. unfold round_ratio.
  rewrite (Z.sgn_pos d), (Z.abs_eq d) by lia. ring.
Qed.

Lemma round_ratio_nonneg a d : 0 <= a -> 0 < d ->
  round_ratio a d = round_pos a d.
Proof.
  intros Ha Hd. rewrite round_ratio_pos_den by lia.
  destruct (Z.eq_dec a 0) as [->|Hne].
  - simpl. now rewrite round_pos_zero.
  - rewrite Z.sgn_pos, Z.abs_eq by lia. ring.
Qed.

Lemma round_ratio_nonpos a d : a <= 0 -> 0 < d ->
  round_ratio a d = - round_pos (- a) d.
Proof.
  intros Ha Hd. rewrite round_ratio_pos_den by lia.
  destruct (Z.eq_dec a 0) as [->|Hne].
  - simpl. now rewrite round_pos_zero.
  - rewrite Z.sgn_neg, Z.abs_neq by lia. ring.
Qed.

Lemma round_ratio_mono a a' d : 0 < d -> a <= a' ->
  round_ratio a d <= round_ratio a' d.
Proof.
  intros Hd Hle.
  destruct (Z_le_gt_dec 0 a) as [Ha|Ha].
  - rewrite !round_ratio_nonneg by lia. apply round_pos_mono; lia.
  - destruct (Z_le_gt_dec 0 a') as [Ha'|Ha'].
    + rewrite (round_ratio_nonpos a), (round_ratio_nonneg a') by lia.
      pose proof (round_pos_nonneg (- a) d ltac:(lia) Hd).
      pose proof (round_pos_nonneg a' d ltac:(lia) Hd). lia.
    + rewrite !round_ratio_nonpos by lia.
      pose proof (round_pos_mono (- a') (- a) d ltac:(lia) Hd ltac:(lia)). lia.
Qed.

(** *** Python's conversions and divisions *)

Lemma one_units_pos : 0 < one_units.
Proof. reflexivity. Qed.

Lemma representable_one_units_mul k : 0 <= k <= 2 ^ prec ->
  representable (k * one_units).
Proof. intros Hk. apply (representable_scaled k 1074); lia. Qed.

Lemma representable_pow2 t : 0 <= t -> representable (2 ^ t).
Proof.
  intros Ht. rewrite <- (Z.mul_1_l (2 ^ t)).
  apply representable_scaled; [|lia]. split; [lia|]. now apply (Z.pow_le_mono_r 2 0).
Qed.

Lemma of_int_units z y : of_int z = Ok y ->
  units y = round_ratio (z * one_units) 1.
Proof.
  unfold of_int. destruct (overflows _); [discriminate|].
  intros [= <-]. reflexivity.
Qed.

Lemma of_int_pos z y : 0 < z -> of_int z = Ok y -> one_units <= units y.
Proof.
  intros Hz H. rewrite (of_int_units _ _ H).
  pose proof one_units_pos.
  rewrite round_ratio_nonneg by nia.
  apply round_pos_lower_bound; try nia.
  apply (representable_pow2 1074); lia.
Qed.

Lemma of_int_small z : 0 <= z < 2 ^ prec -> of_int z = Ok (F64 (z * one_units)).
Proof.
  intros Hz. unfold of_int.
  pose proof one_units_pos.
  rewrite round_ratio_nonneg by nia.
  assert (E : round_pos (z * one_units) 1 = z * one_units).
  { rewrite <- (Z.mul_1_r (z * one_units)) at 1.
    apply round_pos_exact; [nia|lia|apply representable_one_units_mul; lia]. }
  rewrite E. unfold overflows. rewrite Z.abs_eq by nia.
  replace (overflow_units <=? z * one_units) with false; [reflexivity|].
  symmetry. apply Z.leb_gt.
  change overflow_units with (2 ^ 1024 * one_units).
  apply Z.mul_lt_mono_pos_r; [lia|].
  eapply Z.lt_trans; [apply Hz|]. reflexivity.
Qed.

Lemma to_int_nonneg x : 0 <= units x -> 0 <= to_int x.
Proof.
  intros H. unfold to_int. apply Z.quot_pos; [lia|]. pose proof one_units_pos; lia.
Qed.

Lemma to_int_mono x y : units x <= units y -> to_int x <= to_int y.
Proof.
  intros H. unfold to_int. apply Z.quot_le_mono; [apply one_units_pos|lia].
Qed.

(** What a successful call has computed. *)
Lemma compute_init_iteration_ok a s e n b r v :
  compute_init_iteration a s e n b r = Ok v ->
  exists bb fe fn,
    b = Some bb /\ s <> 0 /\
    of_int e = Ok fe /\ units fe <> 0 /\
    of_int n = Ok fn /\ units fn <> 0 /\
    v = to_int
          (F64 (round_ratio
                  (round_ratio
                     (round_ratio (a * bb * r * one_units) s * one_units)
                     (units fe) * one_units)
                  (units fn))).
Proof.
  unfold compute_init_iteration, int_mul_opt, int_truediv, float_truediv_int.
  destruct b as [bb|]; [|discriminate]. cbn [bind].
  destruct (Z.eqb_spec s 0) as [|Hs]; [discriminate|].
  destruct (overflows _); [discriminate|]. cbn [bind].
  destruct (of_int e) as [fe|] eqn:He; [|discriminate]. cbn [bind units].
  destruct (Z.eqb_spec (units fe) 0) as [|Hfe]; [discriminate|]. cbn [bind].
  destruct (of_int n) as [fn|] eqn:Hn; [|discriminate]. cbn [bind units].
  destruct (Z.eqb_spec (units fn) 0) as [|Hfn]; [discriminate|]. cbn [bind].
  intros [= <-]. exists bb, fe, fn. repeat split; auto.
Qed.

Lemma scheduler_sign a s e n b r v :
  0 < s -> 0 < e -> 0 < n ->
  (forall bb, b = Some bb -> 0 <= a * bb * r) ->
  compute_init_iteration a s e n b r = Ok v -> 0 <= v.
Proof.
  intros Hs He Hn Hp H.
  apply compute_init_iteration_ok in H
    as (bb & fe & fn & -> & _ & Hfe & _ & Hfn & _ & ->).
  specialize (Hp bb eq_refl).
  pose proof one_units_pos as HU.
  pose proof (of_int_pos _ _ He Hfe). pose proof (of_int_pos _ _ Hn Hfn).
  apply to_int_nonneg. cbn [units].
  rewrite (round_ratio_nonneg (a * bb * r * one_units) s) by nia.
  pose proof (round_pos_nonneg (a * bb * r * one_units) s ltac:(nia) Hs) as H1.
  rewrite (round_ratio_nonneg (_ * one_units) (units fe)) by nia.
  pose proof (round_pos_nonneg (round_pos (a * bb * r * one_units) s * one_units)
                (units fe) ltac:(nia) ltac:(lia)) as H2.
  rewrite round_ratio_nonneg by nia.
  apply round_pos_nonneg; nia.
Qed.

Lemma scheduler_order a a' s e n bb r v v' :
  0 < s -> 0 < e -> 0 < n -> 0 <= bb * r -> a <= a' ->
  compute_init_iteration a s e n (Some bb) r = Ok v ->
  compute_init_iteration a' s e n (Some bb) r = Ok v' ->
  v <= v'.
Proof.
  intros Hs He Hn Hbr Hle H H'.
  apply compute_init_iteration_ok in H
    as (b1 & fe & fn & [= <-] & _ & Hfe & _ & Hfn & _ & ->).
  apply compute_init_iteration_ok in H'
    as (b2 & fe' & fn' & [= <-] & _ & Hfe' & _ & Hfn' & _ & ->).
  rewrite Hfe in Hfe'. injection Hfe' as <-.
  rewrite Hfn in Hfn'. injection Hfn' as <-.
  pose proof one_units_pos as HU.
  pose proof (of_int_pos _ _ He Hfe). pose proof (of_int_pos _ _ Hn Hfn).
  apply to_int_mono. cbn [units].
  apply round_ratio_mono; [lia|]. apply Z.mul_le_mono_nonneg_r; [lia|].
  apply round_ratio_mono; [lia|]. apply Z.mul_le_mono_nonneg_r; [lia|].
  apply round_ratio_mono; [lia|]. apply Z.mul_le_mono_nonneg_r; [lia|].
  replace (a * bb * r) with (a * (bb * r)) by ring.
  replace (a' * bb * r) with (a' * (bb * r)) by ring.
  apply Z.mul_le_mono_nonneg_r; lia.
Qed.

Lemma round_pos_ge_pow2 t a d : 0 <= t -> 0 < d -> 2 ^ t * d <= a ->
  2 ^ t <= round_pos a d.
Proof.
  intros Ht Hd H. apply round_pos_lower_bound; auto.
  - apply Z.pow_nonneg; lia.
  - now apply representable_pow2.
Qed.

Lemma round_pos_ge_int k a d : 0 <= k < 2 ^ prec -> 0 < d ->
  k * one_units * d <= a -> k * one_units <= round_pos a d.
Proof.
  intros Hk Hd H. pose proof one_units_pos.
  apply round_pos_lower_bound; auto; [nia|].
  apply representable_one_units_mul; lia.
Qed.

(** Three relative errors of one part in [2^53] cannot carry a quotient
    with denominator at most [2^51] up to the next integer. *)
Lemma no_carry T c : c = 2 ^ 53 -> T <= 2 ^ 51 ->
  T * (c * c * c) <= (T - 1) * ((c + 1) * (c + 1) * (c + 1)) -> False.
Proof. intros -> HT H. lia. Qed.

Lemma chain_three u1 u2 u3 s e n c q :
  0 < s -> 0 < e -> 0 < n -> 0 < c ->
  0 <= u1 -> 0 <= u2 -> 0 <= u3 ->
  u1 * s * c <= q * (c + 1) ->
  u2 * e * c <= u1 * (c + 1) ->
  u3 * n * c <= u2 * (c + 1) ->
  u3 * (s * e * n) * (c * c * c) <= q * ((c + 1) * (c + 1) * (c + 1)).
Proof.
  intros Hs He Hn Hc H1 H2 H3 R1 R2 R3.
  assert (A1 : u3 * n * c * (e * c) <= u2 * (c + 1) * (e * c))
    by (apply Z.mul_le_mono_nonneg_r; [nia|exact R3]).
  assert (A2 : u2 * e * c * (c + 1) <= u1 * (c + 1) * (c + 1))
    by (apply Z.mul_le_mono_nonneg_r; [lia|exact R2]).
  assert (A3 : u3 * n * e * (c * c) <= u1 * ((c + 1) * (c + 1))).
  { replace (u3 * n * e * (c * c)) with (u3 * n * c * (e * c)) by ring.
    replace (u1 * ((c + 1) * (c + 1))) with (u1 * (c + 1) * (c + 1)) by ring.
    replace (u2 * (c + 1) * (e * c)) with (u2 * e * c * (c + 1)) in A1 by ring.
    lia. }
  assert (A4 : u3 * n * e * (c * c) * (s * c) <= u1 * ((c + 1) * (c + 1)) * (s * c))
    by (apply Z.mul_le_mono_nonneg_r; [nia|exact A3]).
  assert (A5 : u1 * s * c * ((c + 1) * (c + 1)) <= q * (c + 1) * ((c + 1) * (c + 1)))
    by (apply Z.mul_le_mono_nonneg_r; [nia|exact R1]).
  replace (u3 * (s * e * n) * (c * c * c)) with (u3 * n * e * (c * c) * (s * c)) by ring.
  replace (q * ((c + 1) * (c + 1) * (c + 1))) with (q * (c + 1) * ((c + 1) * (c + 1))) by ring.
  replace (u1 * ((c + 1) * (c + 1)) * (s * c)) with (u1 * s * c * ((c + 1) * (c + 1))) in A4 by ring.
  lia.
Qed.

(** Three divisions of a small non-negative product by small positive
    integers, each rounded, followed by truncation: the rounding errors
    are too small to reach the next integer. *)
Lemma three_divisions_floor p s e n :
  0 <= p -> 0 < s -> 0 < e -> 0 < n -> p + s * e * n <= 2 ^ 51 ->
  round_pos
    (round_pos (round_pos (p * one_units) s * one_units) (e * one_units)
     * one_units) (n * one_units) / one_units
  = p / (s * e * n).
Proof.
  intros Hp Hs He Hn Hb.
  pose proof one_units_pos as HU.
  assert (Hen : 0 < e * n) by nia.
  assert (HD : 0 < s * e * n) by nia.
  assert (Hs51 : s <= 2 ^ 51) by nia.
  assert (He51 : e <= 2 ^ 51) by nia.
  assert (Hn51 : n <= 2 ^ 51) by nia.
  remember (p / (s * e * n)) as m eqn:Em.
  assert (Hm : 0 <= m) by (subst m; apply Z.div_pos; lia).
  assert (Hml : m * (s * e * n) <= p)
    by (subst m; rewrite Z.mul_comm; apply Z.mul_div_le; lia).
  assert (Hmu : p < (m + 1) * (s * e * n)).
  { subst m. pose proof (Z.div_mod p (s * e * n) ltac:(lia)).
    pose proof (Z.mod_pos_bound p (s * e * n) HD). nia. }
  clear Em.
  assert (Hmen : m * e * n <= p) by nia.
  assert (Hmn : m * n <= p) by nia.
  assert (Hmp : m <= p) by nia.
  assert (P53 : 2 ^ 51 < 2 ^ prec) by reflexivity.
  remember (round_pos (p * one_units) s) as u1 eqn:E1.
  remember (round_pos (u1 * one_units) (e * one_units)) as u2 eqn:E2.
  remember (round_pos (u2 * one_units) (n * one_units)) as u3 eqn:E3.
  assert (H1 : 0 <= u1) by (subst u1; apply round_pos_nonneg; nia).
  assert (H2 : 0 <= u2) by (subst u2; apply round_pos_nonneg; nia).
  assert (H3 : 0 <= u3) by (subst u3; apply round_pos_nonneg; nia).
  (* lower bounds: the integers m*e*n, m*n and m are doubles *)
  assert (L1 : m * e * n * one_units <= u1).
  { rewrite E1. apply round_pos_ge_int; [nia|lia|].
    clear - Hml HU. nia. }
  assert (L2 : m * n * one_units <= u2).
  { rewrite E2. apply round_pos_ge_int; [nia|nia|].
    clear - L1 HU. nia. }
  assert (L3 : m * one_units <= u3).
  { rewrite E3. apply round_pos_ge_int; [nia|nia|].
    clear - L2 HU. nia. }
  assert (Upper : u3 < (m + 1) * one_units).
  { destruct (Z.eq_dec p 0) as [Hp0|Hp0].
    - assert (Z1 : u1 = 0) by (rewrite E1, Hp0; apply round_pos_zero; lia).
      assert (Z2 : u2 = 0) by (rewrite E2, Z1; apply round_pos_zero; nia).
      assert (Z3 : u3 = 0) by (rewrite E3, Z2; apply round_pos_zero; nia).
      clear - Z3 Hm HU. nia.
    - assert (Hp1 : 1 <= p) by lia.
      assert (N1 : 2 ^ 1023 <= u1).
      { rewrite E1. apply round_pos_ge_pow2; [lia|lia|].
        replace one_units with (2 ^ 1023 * 2 ^ 51) by reflexivity.
        assert (0 < 2 ^ 1023) by reflexivity.
        remember (2 ^ 1023) as K. clear - Hp1 Hs51 H. nia. }
      assert (N2 : 2 ^ 972 <= u2).
      { rewrite E2. apply round_pos_ge_pow2; [lia|nia|].
        replace (2 ^ 1023) with (2 ^ 972 * 2 ^ 51) in N1 by reflexivity.
        assert (0 < 2 ^ 972) by reflexivity.
        remember (2 ^ 972) as K. clear - N1 He51 H HU He.
        assert (K * e <= u1) by nia. nia. }
      assert (R1 : u1 * s * 2 ^ prec <= p * one_units * (2 ^ prec + 1)).
      { rewrite E1. apply round_pos_relative; [lia|].
        replace one_units with (2 ^ 51 * 2 ^ (prec - 1) * 2 ^ 971) by reflexivity.
        assert (0 < 2 ^ (prec - 1)) by reflexivity.
        assert (0 < 2 ^ 971) by reflexivity.
        remember (2 ^ (prec - 1)) as K. remember (2 ^ 971) as K'.
        clear - Hp1 Hs51 Hs H H0.
        assert (s * K <= 2 ^ 51 * K) by nia.
        assert (2 ^ 51 * K <= 2 ^ 51 * K * K') by nia.
        assert (2 ^ 51 * K * K' <= p * (2 ^ 51 * K * K')) by nia. lia. }
      assert (R2 : u2 * (e * one_units) * 2 ^ prec
                   <= u1 * one_units * (2 ^ prec + 1)).
      { rewrite E2. apply round_pos_relative; [nia|].
        replace (2 ^ 1023) with (2 ^ 51 * 2 ^ (prec - 1) * 2 ^ 920) in N1 by reflexivity.
        assert (0 < 2 ^ (prec - 1)) by reflexivity.
        assert (0 < 2 ^ 920) by reflexivity.
        remember (2 ^ (prec - 1)) as K. remember (2 ^ 920) as K'.
        clear - N1 He51 He H H0 HU.
        assert (e * K <= 2 ^ 51 * K) by nia.
        assert (2 ^ 51 * K <= 2 ^ 51 * K * K') by nia.
        assert (e * K <= u1) by lia. nia. }
      assert (R3 : u3 * (n * one_units) * 2 ^ prec
                   <= u2 * one_units * (2 ^ prec + 1)).
      { rewrite E3. apply round_pos_relative; [nia|].
        replace (2 ^ 972) with (2 ^ 51 * 2 ^ (prec - 1) * 2 ^ 869) in N2 by reflexivity.
        assert (0 < 2 ^ (prec - 1)) by reflexivity.
        assert (0 < 2 ^ 869) by reflexivity.
        remember (2 ^ (prec - 1)) as K. remember (2 ^ 869) as K'.
        clear - N2 Hn51 Hn H H0 HU.
        assert (n * K <= 2 ^ 51 * K) by nia.
        assert (2 ^ 51 * K <= 2 ^ 51 * K * K') by nia.
        assert (n * K <= u2) by lia. nia. }
      remember (2 ^ prec) as c eqn:Ec.
      assert (Hc : 0 < c) by (subst c; reflexivity).
      assert (R2' : u2 * e * c <= u1 * (c + 1)).
      { apply (Z.mul_le_mono_pos_r _ _ one_units HU).
        clear - R2. lia. }
      assert (R3' : u3 * n * c <= u2 * (c + 1)).
      { apply (Z.mul_le_mono_pos_r _ _ one_units HU).
        clear - R3. lia. }
      pose proof (chain_three u1 u2 u3 s e n c (p * one_units)
                    Hs He Hn Hc H1 H2 H3 R1 R2' R3') as C.
      apply Z.nle_gt. intros Hge.
      apply (no_carry ((m + 1) * (s * e * n)) c Ec); [clear - Hml Hb; lia|].
      apply (Z.mul_le_mono_pos_r _ _ one_units HU).
      remember ((c + 1) * (c + 1) * (c + 1)) as c3'.
      remember (c * c * c) as c3.
      assert (0 < c3) by (subst c3; clear - Hc; nia).
      assert (0 <= c3') by (subst c3'; clear - Hc; nia).
      assert (X1 : (m + 1) * (s * e * n) * c3 * one_units
                   <= u3 * (s * e * n) * c3).
      { clear - Hge HD H. 
        replace ((m + 1) * (s * e * n) * c3 * one_units)
          with ((m + 1) * one_units * ((s * e * n) * c3)) by ring.
        replace (u3 * (s * e * n) * c3) with (u3 * ((s * e * n) * c3)) by ring.
        apply Z.mul_le_mono_nonneg_r; nia. }
      assert (X2 : p * one_units * c3'
                   <= ((m + 1) * (s * e * n) - 1) * c3' * one_units).
      { clear - Hmu H0 HU.
        replace (((m + 1) * (s * e * n) - 1) * c3' * one_units)
          with (((m + 1) * (s * e * n) - 1) * one_units * c3') by ring.
        apply Z.mul_le_mono_nonneg_r; [lia|].
        apply Z.mul_le_mono_nonneg_r; lia. }
      clear - X1 X2 C. lia. }
  clear - L3 Upper HU.
  symmetry. apply Z.div_unique with (r := u3 - m * one_units); [left|]; lia.
Qed.

Lemma abs_round_ratio a d : d <> 0 ->
  Z.abs (round_ratio a d) = round_pos (Z.abs a) (Z.abs d).
Proof.
  intros Hd. unfold round_ratio.
  pose proof (round_pos_nonneg (Z.abs a) (Z.abs d) ltac:(lia) ltac:(lia)) as Hn.
  destruct (Z.eq_dec a 0) as [->|Ha].
  - simpl. rewrite round_pos_zero by lia. reflexivity.
  - assert (Hs : Z.sgn a * Z.sgn d = 1 \/ Z.sgn a * Z.sgn d = -1)
      by (destruct a, d; simpl; auto; contradiction).
    destruct Hs as [-> | ->]; lia.
Qed.

Lemma round_ratio_representable a d : d <> 0 -> representable (round_ratio a d).
Proof.
  intros Hd.
  pose proof (round_pos_representable (Z.abs a) (Z.abs d) ltac:(lia) ltac:(lia)) as H.
  pose proof (round_pos_nonneg (Z.abs a) (Z.abs d) ltac:(lia) ltac:(lia)).
  unfold representable in *. rewrite abs_round_ratio by lia.
  now rewrite Z.abs_eq in H by lia.
Qed.

Lemma int_truediv_finite a b x : int_truediv a b = Ok x -> finite_double (units x).
Proof.
  unfold int_truediv. destruct (Z.eqb_spec b 0); [discriminate|].
  unfold overflows. destruct (Z.leb_spec overflow_units (Z.abs (round_ratio (a * one_units) b)));
    [discriminate|].
  intros [= <-]. split; [now apply round_ratio_representable|assumption].
Qed.

Lemma of_int_finite z y : of_int z = Ok y -> finite_double (units y).
Proof.
  unfold of_int, overflows.
  destruct (Z.leb_spec overflow_units (Z.abs (round_ratio (z * one_units) 1)));
    [discriminate|].
  intros [= <-]. split; [apply round_ratio_representable; lia|assumption].
Qed.

Lemma of_int_magnitude z y : z <> 0 -> of_int z = Ok y -> one_units <= Z.abs (units y).
Proof.
  intros Hz H. rewrite (of_int_units _ _ H), abs_round_ratio by lia.
  pose proof one_units_pos.
  change (Z.abs 1) with 1.
  apply round_pos_lower_bound; [lia|lia|apply (representable_pow2 1074); lia|].
  rewrite Z.abs_mul, (Z.abs_eq one_units) by lia. nia.
Qed.

(** Dividing a double by a non-zero integer yields a double: the model
    of [float_truediv_int] needs no infinity. *)
Lemma float_truediv_int_bounded x b y :
  finite_double (units x) -> float_truediv_int x b = Ok y ->
  finite_double (units y) /\ Z.abs (units y) <= Z.abs (units x).
Proof.
  intros [Hr Hf]. unfold float_truediv_int.
  destruct (of_int b) as [fy|] eqn:Hb; [|discriminate]. cbn [bind].
  destruct (Z.eqb_spec (units fy) 0) as [|Hy]; [discriminate|].
  intros [= <-]. cbn [units].
  assert (Hb0 : b <> 0).
  { intros ->. rewrite (of_int_small 0) in Hb by (unfold prec; lia).
    injection Hb as <-. now apply Hy. }
  pose proof (of_int_magnitude _ _ Hb0 Hb) as Hm.
  pose proof one_units_pos.
  assert (Hle : Z.abs (round_ratio (units x * one_units) (units fy)) <= Z.abs (units x)).
  { rewrite abs_round_ratio by lia.
    apply round_pos_upper_bound; [lia|lia| |].
    - unfold representable in *.
      now rewrite (Z.abs_eq (Z.abs (units x))) by apply Z.abs_nonneg.
    - rewrite Z.abs_mul, (Z.abs_eq one_units) by lia.
      apply Z.mul_le_mono_nonneg_l; lia. }
  unfold finite_double. cbn [units].
  split; [split|]; [now apply round_ratio_representable|lia|lia].
Qed.

Lemma no_overflow_below_2_1023 z d : 0 < d -> Z.abs z <= 2 ^ 1023 ->
  overflows (round_ratio (z * one_units) d) = false.
Proof.
  intros Hd Hz. pose proof one_units_pos as HU.
  unfold overflows. apply Z.leb_gt.
  rewrite abs_round_ratio by lia.
  apply Z.le_lt_trans with (2 ^ 2097); [|reflexivity].
  apply round_pos_upper_bound; [lia|lia|apply representable_pow2; lia|].
  rewrite Z.abs_mul, (Z.abs_eq one_units), (Z.abs_eq d) by lia.
  change (2 ^ 2097) with (2 ^ 1023 * one_units).
  apply Z.le_trans with (2 ^ 1023 * one_units * 1); [nia|].
  apply Z.mul_le_mono_nonneg_l; [apply Z.mul_nonneg_nonneg; lia|lia].
Qed.

Lemma of_int_returns z : 0 < z <= 2 ^ 1023 ->
  exists y, of_int z = Ok y /\ 0 < units y.
Proof.
  intros Hz. pose proof one_units_pos as HU.
  assert (E : of_int z = Ok (F64 (round_ratio (z * one_units) 1))).
  { unfold of_int. now rewrite no_overflow_below_2_1023 by (try rewrite Z.abs_eq; lia). }
  eexists; split; [exact E|].
  pose proof (of_int_pos z _ ltac:(lia) E). lia.
Qed.

(** X3.  [compute_init_iteration] returns whenever its divisors are positive
    and nothing is astronomically large. *)
Lemma compute_init_iteration_returns a s e n b r :
  0 < s -> 0 < e <= 2 ^ 1023 -> 0 < n <= 2 ^ 1023 ->
  Z.abs (a * b * r) <= 2 ^ 1023 ->
  exists v, compute_init_iteration a s e n (Some b) r = Ok v.
Proof.
  intros Hs He Hn Hp.
  destruct (of_int_returns e He) as (fe & Hfe & Hfe0).
  destruct (of_int_returns n Hn) as (fn & Hfn & Hfn0).
  unfold compute_init_iteration, int_mul_opt, int_truediv, float_truediv_int.
  cbn [bind].
  destruct (Z.eqb_spec s 0); [lia|].
  rewrite no_overflow_below_2_1023 by assumption. cbn [bind].
  rewrite Hfe. cbn [bind].
  destruct (Z.eqb_spec (units fe) 0); [lia|]. cbn [bind].
  rewrite Hfn. cbn [bind].
  destruct (Z.eqb_spec (units fn) 0); [lia|].
  eexists. reflexivity.
Qed.

(** X2.  A run that has not trained yet starts at iteration [0]. *)
Lemma compute_init_iteration_zero a s e n b r :
  0 < s -> 0 < e <= 2 ^ 1023 -> 0 < n <= 2 ^ 1023 ->
  a * b * r = 0 ->
  compute_init_iteration a s e n (Some b) r = Ok 0.
Proof.
  intros Hs He Hn Hp.
  destruct (of_int_returns e He) as (fe & Hfe & Hfe0).
  destruct (of_int_returns n Hn) as (fn & Hfn & Hfn0).
  unfold compute_init_iteration, int_mul_opt, int_truediv, float_truediv_int.
  cbn [bind]. rewrite Hp.
  destruct (Z.eqb_spec s 0); [lia|].
  change (round_ratio (0 * one_units) s) with 0.
  change (overflows 0) with false. cbn [bind].
  rewrite Hfe. cbn [bind units].
  destruct (Z.eqb_spec (units fe) 0); [lia|]. cbn [bind].
  rewrite Hfn. cbn [bind units].
  destruct (Z.eqb_spec (units fn) 0); [lia|].
  reflexivity.
Qed.

Lemma scheduler_floor a s e n b r :
  0 < s -> 0 < e -> 0 < n ->
  0 <= a * b * r -> a * b * r + s * e * n <= 2 ^ 51 ->
  compute_init_iteration a s e n (Some b) r = Ok (a * b * r / (s * e * n)).
Proof.
  intros Hs He Hn Hp Hb.
  pose proof one_units_pos as HU.
  assert (Hen : 0 < e * n) by nia.
  assert (He51 : e <= 2 ^ 51) by nia.
  assert (Hn51 : n <= 2 ^ 51) by nia.
  assert (P53 : 2 ^ 51 < 2 ^ prec) by reflexivity.
  unfold compute_init_iteration, int_mul_opt, int_truediv, float_truediv_int.
  cbn [bind].
  destruct (Z.eqb_spec s 0); [lia|].
  remember (a * b * r) as p eqn:Ep. clear Ep.
  rewrite (round_ratio_nonneg (p * one_units) s) by nia.
  assert (Hu1 : 0 <= round_pos (p * one_units) s <= p * one_units).
  { split; [apply round_pos_nonneg; nia|].
    apply round_pos_upper_bound; [nia|lia| |nia].
    apply representable_one_units_mul. nia. }
  remember (round_pos (p * one_units) s) as u1 eqn:E1.
  replace (overflows u1) with false; cycle 1.
  { symmetry. unfold overflows. apply Z.leb_gt. rewrite Z.abs_eq by lia.
    change overflow_units with (2 ^ 1024 * one_units).
    apply Z.le_lt_trans with (p * one_units); [lia|].
    apply Z.mul_lt_mono_pos_r; [lia|].
    apply Z.le_lt_trans with (2 ^ 51); [nia|reflexivity]. }
  cbn [bind].
  rewrite (of_int_small e) by lia. cbn [bind units].
  destruct (Z.eqb_spec (e * one_units) 0); [nia|].
  rewrite (of_int_small n) by lia. cbn [bind units].
  destruct (Z.eqb_spec (n * one_units) 0); [nia|].
  cbn [bind]. f_equal. unfold to_int. cbn [units].
  rewrite (round_ratio_nonneg (u1 * one_units)) by nia.
  assert (0 <= round_pos (u1 * one_units) (e * one_units))
    by (apply round_pos_nonneg; nia).
  rewrite round_ratio_nonneg by nia.
  rewrite Z.quot_div_nonneg; [|apply round_pos_nonneg; nia|lia].
  subst u1. now apply three_divisions_floor.
Qed.

Lemma zero_divisor_raises a s e n b r :
  s = 0 \/ e = 0 \/ n = 0 ->
  exists ex, compute_init_iteration a s e n b r = Raise ex /\
             (ex = ZeroDivisionError \/ ex = OverflowError \/ ex = TypeError).
Proof.
  intros Hz.
  assert (Z0 : of_int 0 = Ok (F64 0))
    by (now rewrite (of_int_small 0) by (unfold prec; lia)).
  assert (OI : forall z, (exists y, of_int z = Ok y) \/ of_int z = Raise OverflowError).
  { intros z. unfold of_int. destruct (overflows _); eauto. }
  unfold compute_init_iteration, int_mul_opt, int_truediv, float_truediv_int.
  destruct b as [bb|]; cbn [bind]; [|eauto].
  destruct (Z.eqb_spec s 0) as [|Hs]; cbn [bind]; [eauto|].
  destruct (overflows _); cbn [bind]; [eauto|].
  destruct (OI e) as [[fe Hfe]| ->]; cbn [bind]; [rewrite Hfe|eauto]. cbn [bind].
  destruct (Z.eqb_spec (units fe) 0) as [|Hfe0]; cbn [bind]; [eauto|].
  destruct (OI n) as [[fn Hfn]| ->]; cbn [bind]; [rewrite Hfn|eauto]. cbn [bind].
  destruct (Z.eqb_spec (units fn) 0) as [|Hfn0]; cbn [bind]; [eauto|].
  exfalso. destruct Hz as [->|[->| ->]];
    [now apply Hs
    |rewrite Z0 in Hfe; injection Hfe as <-; now apply Hfe0
    |rewrite Z0 in Hfn; injection Hfn as <-; now apply Hfn0].
Qed.

(** *** Agreement with the Standard Library's binary64

    [SFdiv] and [binary_normalize] of [SpecFloat], at precision 53 and
    maximal exponent 1024, give the doubles computed here. *)

Example int_truediv_agrees_409600_100 :
  of_spec (SFdiv prec emax (spec_of_int 409600) (spec_of_int 100))
  = Some (round_ratio (409600 * one_units) 100).
Proof. vm_compute. reflexivity. Qed.

Example int_truediv_agrees_1_3 :
  of_spec (SFdiv prec emax (spec_of_int 1) (spec_of_int 3))
  = Some (round_ratio (1 * one_units) 3).
Proof. vm_compute. reflexivity. Qed.

Example int_truediv_agrees_negative :
  of_spec (SFdiv prec emax (spec_of_int (-7)) (spec_of_int 1000003))
  = Some (round_ratio (-7 * one_units) 1000003).
Proof. vm_compute. reflexivity. Qed.

Example float_truediv_agrees_third_1024 :
  of_spec (SFdiv prec emax (spec_of_units (round_ratio (1 * one_units) 3))
             (spec_of_int 1024))
  = Some (round_ratio (round_ratio (1 * one_units) 3 * one_units)
            (1024 * one_units)).
Proof. vm_compute. reflexivity. Qed.

Example of_int_agrees_tie_to_even :
  of_spec (spec_of_int (2 ^ 53 + 1)) = Some (round_ratio ((2 ^ 53 + 1) * one_units) 1)
  /\ of_spec (spec_of_int (2 ^ 53 + 3)) = Some (round_ratio ((2 ^ 53 + 3) * one_units) 1).
Proof. split; vm_compute; reflexivity. Qed.

Example three_divisions_agree_at_1600 :
  of_spec (SFdiv prec emax
             (SFdiv prec emax
                (SFdiv prec emax (spec_of_int (1600 * 32 * 8)) (spec_of_int 100))
                (spec_of_int 1024))
             (spec_of_int 4))
  = Some one_units
  /\ compute_init_iteration 1600 100 1024 4 (Some 32) 8 = Ok (to_int (F64 one_units)).
Proof. split; vm_compute; reflexivity. Qed.

(* ================================================================== *)
(** ** The iteration scheduler: the claims *)

(** C3.  [compute_init_iteration] returns the floor of
    [init_train_step * per_replica_batch_size * num_replicas_in_sync /
     sequence_length / num_episodes_per_iteration / num_epochs] whenever
    the divisors are positive, the product in the numerator is
    non-negative and numerator plus denominator stay within [2^51], the
    range in which three rounded divisions cannot reach the next integer;
    with [sequence_length = 100], [1024] episodes, [4] epochs, batch size
    [32] and [8] replicas it returns [1] at step [1600] and [0] at step
    [0]. *)
Theorem compute_init_iteration_floor
    (init_train_step sequence_length num_episodes_per_iteration num_epochs
     per_replica_batch_size num_replicas_in_sync : Z) :
  0 < sequence_length -> 0 < num_episodes_per_iteration -> 0 < num_epochs ->
  0 <= init_train_step * per_replica_batch_size * num_replicas_in_sync ->
  init_train_step * per_replica_batch_size * num_replicas_in_sync
    + sequence_length * num_episodes_per_iteration * num_epochs <= 2 ^ 51 ->
  compute_init_iteration init_train_step sequence_length
    num_episodes_per_iteration num_epochs (Some per_replica_batch_size)
    num_replicas_in_sync
  = Ok (init_train_step * per_replica_batch_size * num_replicas_in_sync
        / (sequence_length * num_episodes_per_iteration * num_epochs))
  /\ compute_init_iteration 1600 100 1024 4 (Some 32) 8 = Ok 1
  /\ compute_init_iteration 0 100 1024 4 (Some 32) 8 = Ok 0.
Proof.
  intros Hs He Hn Hp Hb. split; [now apply scheduler_floor|].
  split; vm_compute; reflexivity.
Qed.

Lemma compute_init_iteration_floor_witness :
  compute_init_iteration 1600 100 1024 4 (Some 32) 8
  = Ok (1600 * 32 * 8 / (100 * 1024 * 4))
  /\ compute_init_iteration 1600 100 1024 4 (Some 32) 8 = Ok 1
  /\ compute_init_iteration 0 100 1024 4 (Some 32) 8 = Ok 0.
Proof.
  apply (compute_init_iteration_floor 1600 100 1024 4 32 8);
    [reflexivity | reflexivity | reflexivity
     | vm_compute; discriminate | vm_compute; discriminate].
Defined.

(** C3, as stated, fails: [int()] truncates toward zero, so a negative
    quotient is rounded up, not down; and a numerator beyond the exact
    range of a double is rounded before it is divided, which can carry the
    quotient to the next integer. *)
Lemma compute_init_iteration_not_floor :
  compute_init_iteration (-1) 100 1024 4 (Some 32) 8 = Ok 0
  /\ (-1) * 32 * 8 / (100 * 1024 * 4) = -1
  /\ compute_init_iteration (1600 * (2 ^ 43 + 1) - 1) 100 1024 4 (Some 32) 8
     = Ok (2 ^ 43 + 1)
  /\ (1600 * (2 ^ 43 + 1) - 1) * 32 * 8 / (100 * 1024 * 4) = 2 ^ 43.
Proof.
  split; [vm_compute; reflexivity|]. split; [vm_compute; reflexivity|].
  split; vm_compute; reflexivity.
Qed.

(** C5.  With positive divisors and
    [per_replica_batch_size * num_replicas_in_sync] non-negative,
    [compute_init_iteration] is non-decreasing in [init_train_step]: two
    calls that return are ordered as their first arguments are. *)
Theorem compute_init_iteration_monotone
    (a b sequence_length num_episodes_per_iteration num_epochs
     per_replica_batch_size num_replicas_in_sync va vb : Z) :
  0 < sequence_length -> 0 < num_episodes_per_iteration -> 0 < num_epochs ->
  0 <= per_replica_batch_size * num_replicas_in_sync ->
  a <= b ->
  compute_init_iteration a sequence_length num_episodes_per_iteration
    num_epochs (Some per_replica_batch_size) num_replicas_in_sync = Ok va ->
  compute_init_iteration b sequence_length num_episodes_per_iteration
    num_epochs (Some per_replica_batch_size) num_replicas_in_sync = Ok vb ->
  va <= vb.
Proof.
  intros Hs He Hn Hbr Hle Ha Hb.
  exact (scheduler_order a b sequence_length num_episodes_per_iteration num_epochs
           per_replica_batch_size num_replicas_in_sync va vb Hs He Hn Hbr Hle Ha Hb).
Qed.

Lemma compute_init_iteration_monotone_witness :
  compute_init_iteration 1599 100 1024 4 (Some 32) 8 = Ok 0
  /\ compute_init_iteration 1600 100 1024 4 (Some 32) 8 = Ok 1
  /\ 0 <= 1.
Proof.
  split; [vm_compute; reflexivity|]. split; [vm_compute; reflexivity|].
  apply (compute_init_iteration_monotone 1599 1600 100 1024 4 32 8 0 1);
    [reflexivity | reflexivity | reflexivity
     | vm_compute; discriminate | vm_compute; discriminate
     | vm_compute; reflexivity | vm_compute; reflexivity].
Defined.

(** C5, as stated, fails: the positive-divisor preconditions leave the
    sign of the batch size open, and a negative batch size reverses the
    order. *)
Lemma compute_init_iteration_not_monotone :
  0 <= 1600
  /\ compute_init_iteration 0 100 1024 4 (Some (-32)) 8 = Ok 0
  /\ compute_init_iteration 1600 100 1024 4 (Some (-32)) 8 = Ok (-1)
  /\ ~ 0 <= -1.
Proof.
  split; [lia|]. split; [vm_compute; reflexivity|].
  split; [vm_compute; reflexivity|lia].
Qed.

(** C6.  With positive divisors and a non-negative product
    [init_train_step * per_replica_batch_size * num_replicas_in_sync], a
    result of [compute_init_iteration] is non-negative. *)
Theorem compute_init_iteration_nonneg
    (init_train_step sequence_length num_episodes_per_iteration num_epochs
     per_replica_batch_size num_replicas_in_sync v : Z) :
  0 < sequence_length -> 0 < num_episodes_per_iteration -> 0 < num_epochs ->
  0 <= init_train_step * per_replica_batch_size * num_replicas_in_sync ->
  compute_init_iteration init_train_step sequence_length
    num_episodes_per_iteration num_epochs (Some per_replica_batch_size)
    num_replicas_in_sync = Ok v ->
  0 <= v.
Proof.
  intros Hs He Hn Hp H.
  apply (scheduler_sign init_train_step sequence_length num_episodes_per_iteration
           num_epochs (Some per_replica_batch_size) num_replicas_in_sync v);
    auto.
  now intros bb [= <-].
Qed.

Lemma compute_init_iteration_nonneg_witness :
  compute_init_iteration 1600 100 1024 4 (Some 32) 8 = Ok 1 /\ 0 <= 1.
Proof.
  split; [vm_compute; reflexivity|].
  apply (compute_init_iteration_nonneg 1600 100 1024 4 32 8 1);
    [reflexivity | reflexivity | reflexivity
     | vm_compute; discriminate | vm_compute; reflexivity].
Defined.

(** C6, as stated, fails: positive divisors do not make the result
    non-negative for every value of the other arguments. *)
Lemma compute_init_iteration_negative :
  compute_init_iteration (-1600) 100 1024 4 (Some 32) 8 = Ok (-1)
  /\ ~ 0 <= -1.
Proof. split; [vm_compute; reflexivity|lia]. Qed.

(** C10.  With [per_replica_batch_size = None], [compute_init_iteration]
    raises [TypeError], whatever the other arguments: the first
    multiplication meets [None] and there is no branch for it. *)
Theorem none_batch_size_raises_type_error
    (init_train_step sequence_length num_episodes_per_iteration num_epochs
     num_replicas_in_sync : Z) :
  compute_init_iteration init_train_step sequence_length
    num_episodes_per_iteration num_epochs None num_replicas_in_sync
  = Raise TypeError.
Proof. reflexivity. Qed.

(* ================================================================== *)
(** ** The iteration scheduler: further properties *)

(** *** More on rounding *)

Lemma rne_quot_scale n d c : 0 < d -> 0 < c ->
  rne_quot (n * c) (d * c) = rne_quot n d.
Proof.
  intros Hd Hc. unfold rne_quot.
  rewrite Z.div_mul_cancel_r by lia.
  rewrite Z.mul_mod_distr_r by lia.
  replace (2 * (n mod d * c) ?= d * c) with (2 * (n mod d) ?= d); [reflexivity|].
  destruct (Z.compare_spec (2 * (n mod d)) d) as [E|E|E]; symmetry.
  - apply Z.compare_eq_iff. nia.
  - apply Z.compare_lt_iff. nia.
  - apply Z.compare_gt_iff. nia.
Qed.

(** Rounding sees only the value of the fraction. *)
Lemma round_pos_scale a d c : 0 < d -> 0 < c ->
  round_pos (a * c) (d * c) = round_pos a d.
Proof.
  intros Hd Hc. unfold round_pos.
  assert (E : round_exp (a * c) (d * c) = round_exp a d)
    by (unfold round_exp; now rewrite Z.div_mul_cancel_r by lia).
  rewrite E.
  replace (d * c * 2 ^ round_exp a d) with (d * 2 ^ round_exp a d * c) by ring.
  rewrite rne_quot_scale; auto.
  apply Z.mul_pos_pos; [lia|].
  apply Z.pow_pos_nonneg; [lia|apply round_exp_nonneg].
Qed.

(** A larger divisor never gives a larger quotient. *)
Lemma round_pos_antitone a d d' : 0 <= a -> 0 < d -> d <= d' ->
  round_pos a d' <= round_pos a d.
Proof.
  intros Ha Hd Hle.
  rewrite <- (round_pos_scale a d' d), <- (round_pos_scale a d d') by lia.
  rewrite (Z.mul_comm d' d). apply round_pos_mono; nia.
Qed.

Lemma round_ratio_opp a d : round_ratio (- a) d = - round_ratio a d.
Proof. unfold round_ratio. rewrite Z.sgn_opp, Z.abs_opp. ring. Qed.

Lemma overflows_opp u : overflows (- u) = overflows u.
Proof. unfold overflows. now rewrite Z.abs_opp. Qed.

Lemma to_int_opp u : to_int (F64 (- u)) = - to_int (F64 u).
Proof.
  unfold to_int. cbn [units].
  apply Z.quot_opp_l. pose proof one_units_pos. lia.
Qed.

Lemma of_int_overflow z : 2 ^ 1024 <= Z.abs z -> of_int z = Raise OverflowError.
Proof.
  intros Hz. unfold of_int.
  replace (overflows (round_ratio (z * one_units) 1)) with true; [reflexivity|].
  symmetry. unfold overflows. apply Z.leb_le.
  rewrite abs_round_ratio by lia. change (Z.abs 1) with 1.
  pose proof one_units_pos.
  apply round_pos_lower_bound;
    [apply Z.pow_nonneg; lia|lia|apply (representable_pow2 2098); lia|].
  rewrite Z.abs_mul, (Z.abs_eq one_units) by lia.
  change overflow_units with (2 ^ 1024 * one_units). nia.
Qed.

(** *** More on [compute_init_iteration] *)

Lemma float_truediv_int_opp x b :
  float_truediv_int (F64 (- units x)) b =
  match float_truediv_int x b with
  | Ok y => Ok (F64 (- units y))
  | Raise e => Raise e
  end.
Proof.
  unfold float_truediv_int. destruct (of_int b) as [y|e]; cbn [bind units]; [|reflexivity].
  destruct (units y =? 0); [reflexivity|].
  now rewrite Z.mul_opp_l, round_ratio_opp.
Qed.

(** X4.  [compute_init_iteration] is odd in [init_train_step]: negating
    the step negates the result, and raises what the original call
    raises.  Rounding is symmetric and [int()] truncates toward zero. *)
Theorem compute_init_iteration_odd
    (init_train_step sequence_length num_episodes_per_iteration num_epochs : Z)
    (per_replica_batch_size : option Z) (num_replicas_in_sync : Z) :
  compute_init_iteration (- init_train_step) sequence_length
    num_episodes_per_iteration num_epochs per_replica_batch_size
    num_replicas_in_sync
  = match compute_init_iteration init_train_step sequence_length
            num_episodes_per_iteration num_epochs per_replica_batch_size
            num_replicas_in_sync with
    | Ok v => Ok (- v)
    | Raise e => Raise e
    end.
Proof.
  unfold compute_init_iteration, int_mul_opt.
  destruct per_replica_batch_size as [b|]; cbn [bind]; [|reflexivity].
  unfold int_truediv. destruct (sequence_length =? 0); cbn [bind]; [reflexivity|].
  replace (- init_train_step * b * num_replicas_in_sync * one_units)
    with (- (init_train_step * b * num_replicas_in_sync * one_units)) by ring.
  rewrite round_ratio_opp, overflows_opp.
  destruct (overflows _); cbn [bind]; [reflexivity|].
  set (x1 := F64 (round_ratio _ sequence_length)).
  change (F64 (- round_ratio (init_train_step * b * num_replicas_in_sync * one_units)
                  sequence_length)) with (F64 (- units x1)).
  rewrite float_truediv_int_opp.
  destruct (float_truediv_int x1 num_episodes_per_iteration) as [x2|e]; cbn [bind];
    [|reflexivity].
  rewrite float_truediv_int_opp.
  destruct (float_truediv_int x2 num_epochs) as [x3|e]; cbn [bind]; [|reflexivity].
  f_equal. rewrite to_int_opp. now destruct x3.
Qed.

(** The steps of a call that returns. *)
Lemma compute_init_iteration_steps a s e n b r v :
  compute_init_iteration a s e n b r = Ok v ->
  exists bb x1 x2 x3,
    b = Some bb /\
    int_truediv (a * bb * r) s = Ok x1 /\
    float_truediv_int x1 e = Ok x2 /\
    float_truediv_int x2 n = Ok x3 /\
    v = to_int x3.
Proof.
  unfold compute_init_iteration, int_mul_opt.
  destruct b as [bb|]; [|discriminate]. cbn [bind].
  destruct (int_truediv (a * bb * r) s) as [x1|] eqn:E1; [|discriminate]. cbn [bind].
  destruct (float_truediv_int x1 e) as [x2|] eqn:E2; [|discriminate]. cbn [bind].
  destruct (float_truediv_int x2 n) as [x3|] eqn:E3; [|discriminate]. cbn [bind].
  intros [= <-]. now exists bb, x1, x2, x3.
Qed.

(** X8.  When the product [init_train_step * per_replica_batch_size *
    num_replicas_in_sync] is at most [2^53] in magnitude, a result of
    [compute_init_iteration] is no larger in magnitude than that product,
    whatever the (non-zero) divisors. *)
Theorem compute_init_iteration_magnitude a s e n b r v :
  Z.abs (a * b * r) <= 2 ^ prec ->
  compute_init_iteration a s e n (Some b) r = Ok v ->
  Z.abs v <= Z.abs (a * b * r).
Proof.
  intros Hp H.
  apply compute_init_iteration_steps in H
    as (bb & x1 & x2 & x3 & [= <-] & H1 & H2 & H3 & ->).
  pose proof one_units_pos as HU.
  pose proof (int_truediv_finite _ _ _ H1) as F1.
  destruct (float_truediv_int_bounded _ _ _ F1 H2) as [F2 B2].
  destruct (float_truediv_int_bounded _ _ _ F2 H3) as [F3 B3].
  assert (B1 : Z.abs (units x1) <= Z.abs (a * b * r) * one_units).
  { unfold int_truediv in H1. destruct (Z.eqb_spec s 0) as [|Hs]; [discriminate|].
    destruct (overflows _); [discriminate|]. injection H1 as <-. cbn [units].
    rewrite abs_round_ratio by assumption.
    rewrite Z.abs_mul, (Z.abs_eq one_units) by lia.
    apply round_pos_upper_bound;
      [apply Z.mul_nonneg_nonneg; lia|lia| |].
    - apply representable_one_units_mul. lia.
    - assert (1 <= Z.abs s) by lia.
      assert (0 <= Z.abs (a * b * r) * one_units) by (apply Z.mul_nonneg_nonneg; lia).
      nia. }
  unfold to_int.
  rewrite <- (Z.abs_eq one_units) at 1 by lia.
  rewrite <- Z.quot_abs by lia.
  apply Z.quot_le_upper_bound; lia.
Qed.

(** X9.  With a non-negative numerator, enlarging any of the positive
    divisors [sequence_length], [num_episodes_per_iteration], [num_epochs]
    never enlarges the result of [compute_init_iteration]. *)
Theorem compute_init_iteration_antitone_in_divisors a s s' e e' n n' b r v v' :
  0 <= a * b * r ->
  0 < s <= s' -> 0 < e <= e' -> 0 < n <= n' ->
  compute_init_iteration a s e n (Some b) r = Ok v ->
  compute_init_iteration a s' e' n' (Some b) r = Ok v' ->
  v' <= v.
Proof.
  intros Hp Hs He Hn H H'.
  apply compute_init_iteration_ok in H
    as (b1 & fe & fn & [= <-] & _ & Hfe & _ & Hfn & _ & ->).
  apply compute_init_iteration_ok in H'
    as (b2 & fe' & fn' & [= <-] & _ & Hfe' & _ & Hfn' & _ & ->).
  pose proof one_units_pos as HU.
  pose proof (of_int_pos e fe ltac:(lia) Hfe) as Pe.
  pose proof (of_int_pos n fn ltac:(lia) Hfn) as Pn.
  assert (Le : units fe <= units fe').
  { rewrite (of_int_units _ _ Hfe), (of_int_units _ _ Hfe').
    apply round_ratio_mono; [lia|]. apply Z.mul_le_mono_nonneg_r; lia. }
  assert (Ln : units fn <= units fn').
  { rewrite (of_int_units _ _ Hfn), (of_int_units _ _ Hfn').
    apply round_ratio_mono; [lia|]. apply Z.mul_le_mono_nonneg_r; lia. }
  assert (Hq : 0 <= a * b * r * one_units) by (apply Z.mul_nonneg_nonneg; lia).
  apply to_int_mono. cbn [units].
  rewrite !(round_ratio_nonneg (a * b * r * one_units)) by lia.
  set (x1 := round_pos (a * b * r * one_units) s).
  set (x1' := round_pos (a * b * r * one_units) s').
  assert (P1 : 0 <= x1') by (apply round_pos_nonneg; lia).
  assert (L1 : x1' <= x1) by (apply round_pos_antitone; lia).
  rewrite (round_ratio_nonneg (x1 * one_units)), (round_ratio_nonneg (x1' * one_units))
    by (try apply Z.mul_nonneg_nonneg; lia).
  set (x2 := round_pos (x1 * one_units) (units fe)).
  set (x2' := round_pos (x1' * one_units) (units fe')).
  assert (P2 : 0 <= x2')
    by (apply round_pos_nonneg; [apply Z.mul_nonneg_nonneg|]; lia).
  assert (L2 : x2' <= x2).
  { apply Z.le_trans with (round_pos (x1' * one_units) (units fe)).
    - apply round_pos_antitone; [apply Z.mul_nonneg_nonneg|..]; lia.
    - apply round_pos_mono; [apply Z.mul_nonneg_nonneg|..]; try lia.
      apply Z.mul_le_mono_nonneg_r; lia. }
  rewrite !round_ratio_nonneg by (try apply Z.mul_nonneg_nonneg; lia).
  apply Z.le_trans with (round_pos (x2' * one_units) (units fn)).
  - apply round_pos_antitone; [apply Z.mul_nonneg_nonneg|..]; lia.
  - apply round_pos_mono; [apply Z.mul_nonneg_nonneg|..]; try lia.
    apply Z.mul_le_mono_nonneg_r; lia.
Qed.

(** X6.  [compute_init_iteration] raises [ZeroDivisionError] when
    [sequence_length] is zero, and, for a positive [sequence_length] and a
    numerator of magnitude at most [2^1023], when
    [num_episodes_per_iteration] is zero or when it is positive (at most
    [2^1023]) and [num_epochs] is zero. *)
Theorem zero_divisor_raises_zero_division_error a s e n b r :
  s = 0 \/
  (0 < s /\ Z.abs (a * b * r) <= 2 ^ 1023 /\
   (e = 0 \/ (0 < e <= 2 ^ 1023 /\ n = 0))) ->
  compute_init_iteration a s e n (Some b) r = Raise ZeroDivisionError.
Proof.
  assert (Z0 : of_int 0 = Ok (F64 0))
    by (now rewrite (of_int_small 0) by (unfold prec; lia)).
  unfold compute_init_iteration, int_mul_opt, int_truediv, float_truediv_int.
  cbn [bind].
  intros [->|(Hs & Hp & Hz)]; [reflexivity|].
  destruct (Z.eqb_spec s 0); [lia|].
  rewrite no_overflow_below_2_1023 by assumption. cbn [bind].
  destruct Hz as [->|(He & ->)].
  - rewrite Z0. reflexivity.
  - destruct (of_int_returns e He) as (fe & Hfe & Hfe0).
    rewrite Hfe. cbn [bind].
    destruct (Z.eqb_spec (units fe) 0); [lia|]. cbn [bind].
    rewrite Z0. reflexivity.
Qed.

(** X7.  [compute_init_iteration] raises [OverflowError] when the first
    quotient does not fit a double (numerator at least [2^1024] times
    [sequence_length] in magnitude), and when [num_episodes_per_iteration]
    or [num_epochs] reaches [2^1024] in magnitude, since each is converted
    to a float before it divides; [sequence_length] divides as an int and
    has no such limit. *)
Theorem oversized_operand_raises_overflow_error a s e n b r :
  (s <> 0 /\ 2 ^ 1024 * Z.abs s <= Z.abs (a * b * r)) \/
  (0 < s /\ Z.abs (a * b * r) <= 2 ^ 1023 /\
   (2 ^ 1024 <= Z.abs e \/ (0 < e <= 2 ^ 1023 /\ 2 ^ 1024 <= Z.abs n))) ->
  compute_init_iteration a s e n (Some b) r = Raise OverflowError.
Proof.
  pose proof one_units_pos as HU.
  unfold compute_init_iteration, int_mul_opt, int_truediv, float_truediv_int.
  cbn [bind].
  intros [(Hs & Hp)|(Hs & Hp & Hz)].
  - destruct (Z.eqb_spec s 0); [lia|].
    replace (overflows (round_ratio (a * b * r * one_units) s)) with true; [reflexivity|].
    symmetry. unfold overflows. apply Z.leb_le.
    rewrite abs_round_ratio by lia.
    apply round_pos_lower_bound;
      [apply Z.pow_nonneg; lia|lia|apply (representable_pow2 2098); lia|].
    rewrite Z.abs_mul, (Z.abs_eq one_units) by lia.
    change overflow_units with (2 ^ 1024 * one_units).
    replace (2 ^ 1024 * one_units * Z.abs s) with (2 ^ 1024 * Z.abs s * one_units) by ring.
    apply Z.mul_le_mono_nonneg_r; lia.
  - destruct (Z.eqb_spec s 0); [lia|].
    rewrite no_overflow_below_2_1023 by assumption. cbn [bind].
    destruct Hz as [He|(He & Hn)].
    + now rewrite of_int_overflow.
    + destruct (of_int_returns e He) as (fe & Hfe & Hfe0).
      rewrite Hfe. cbn [bind].
      destruct (Z.eqb_spec (units fe) 0); [lia|]. cbn [bind].
      now rewrite of_int_overflow.
Qed.

(** X1.  A restart resumes at the iteration it was in.  When
    [steps_per_iteration] train steps make one iteration, that is
    [steps_per_iteration * per_replica_batch_size * num_replicas_in_sync =
     sequence_length * num_episodes_per_iteration * num_epochs] as the
    comment on [num_episodes_per_iteration] states, every step from
    [i * steps_per_iteration] up to, but not including,
    [(i + 1) * steps_per_iteration] gives [init_iteration = i]. *)
Theorem resume_within_iteration
    (steps_per_iteration i step sequence_length num_episodes_per_iteration
     num_epochs per_replica_batch_size num_replicas_in_sync : Z) :
  0 < sequence_length -> 0 < num_episodes_per_iteration -> 0 < num_epochs ->
  steps_per_iteration * per_replica_batch_size * num_replicas_in_sync
  = sequence_length * num_episodes_per_iteration * num_epochs ->
  0 <= i ->
  i * steps_per_iteration <= step < (i + 1) * steps_per_iteration ->
  step * per_replica_batch_size * num_replicas_in_sync
    + sequence_length * num_episodes_per_iteration * num_epochs <= 2 ^ 51 ->
  compute_init_iteration step sequence_length num_episodes_per_iteration
    num_epochs (Some per_replica_batch_size) num_replicas_in_sync = Ok i.
Proof.
  intros Hs He Hn Hk Hi Hstep Hb.
  assert (HD : 0 < sequence_length * num_episodes_per_iteration * num_epochs) by nia.
  remember (sequence_length * num_episodes_per_iteration * num_epochs) as D eqn:ED.
  remember (per_replica_batch_size * num_replicas_in_sync) as K eqn:EK.
  assert (Hk' : steps_per_iteration * K = D) by (subst K; lia).
  assert (Hspi : 0 < steps_per_iteration) by lia.
  assert (HK : 0 < K) by nia.
  assert (EP : step * per_replica_batch_size * num_replicas_in_sync = step * K)
    by (subst K; ring).
  assert (Lo : i * D <= step * K) by (rewrite <- Hk'; nia).
  assert (Hi' : step * K < (i + 1) * D) by (rewrite <- Hk'; nia).
  rewrite scheduler_floor; try assumption.
  - f_equal. rewrite <- ED, EP. symmetry.
    apply Z.div_unique with (r := step * K - i * D); [left|]; lia.
  - rewrite EP. nia.
  - now rewrite <- ED.
Qed.

Lemma resume_within_iteration_witness :
  compute_init_iteration 2000 100 1024 4 (Some 32) 8 = Ok 1.
Proof.
  apply (resume_within_iteration 1600 1 2000 100 1024 4 32 8);
    [reflexivity | reflexivity | reflexivity | reflexivity
     | vm_compute; discriminate
     | split; [vm_compute; discriminate | reflexivity]
     | vm_compute; discriminate].
Defined.

Lemma compute_init_iteration_zero_witness :
  compute_init_iteration 0 100 1024 4 (Some 32) 8 = Ok 0.
Proof.
  apply (compute_init_iteration_zero 0 100 1024 4 32 8);
    [reflexivity
     | split; [reflexivity | vm_compute; discriminate]
     | split; [reflexivity | vm_compute; discriminate]
     | reflexivity].
Defined.

Lemma compute_init_iteration_returns_witness :
  exists v, compute_init_iteration 1600 (2 ^ 2000) 1024 4 (Some 32) 8 = Ok v.
Proof.
  apply (compute_init_iteration_returns 1600 (2 ^ 2000) 1024 4 32 8);
    [reflexivity
     | split; [reflexivity | vm_compute; discriminate]
     | split; [reflexivity | vm_compute; discriminate]
     | vm_compute; discriminate].
Defined.

(** X5.  Only the global batch size counts: two configurations with the
    same product [per_replica_batch_size * num_replicas_in_sync] get the
    same result from [compute_init_iteration], be it a value or an
    exception. *)
Theorem compute_init_iteration_global_batch
    (init_train_step sequence_length num_episodes_per_iteration num_epochs
     batch replicas batch' replicas' : Z) :
  batch * replicas = batch' * replicas' ->
  compute_init_iteration init_train_step sequence_length
    num_episodes_per_iteration num_epochs (Some batch) replicas
  = compute_init_iteration init_train_step sequence_length
      num_episodes_per_iteration num_epochs (Some batch') replicas'.
Proof.
  intros H. unfold compute_init_iteration, int_mul_opt. cbn [bind].
  replace (init_train_step * batch * replicas)
    with (init_train_step * batch' * replicas'); [reflexivity|].
  rewrite <- !Z.mul_assoc. now rewrite H.
Qed.

Lemma compute_init_iteration_global_batch_witness :
  compute_init_iteration 1600 100 1024 4 (Some 32) 8
  = compute_init_iteration 1600 100 1024 4 (Some 16) 16.
Proof.
  apply (compute_init_iteration_global_batch 1600 100 1024 4 32 8 16 16).
  reflexivity.
Defined.

Lemma compute_init_iteration_magnitude_witness :
  compute_init_iteration (-1600) 100 1024 4 (Some 32) 8 = Ok (-1)
  /\ Z.abs (-1) <= Z.abs (-1600 * 32 * 8).
Proof.
  split; [vm_compute; reflexivity|].
  apply (compute_init_iteration_magnitude (-1600) 100 1024 4 32 8 (-1));
    [vm_compute; discriminate | vm_compute; reflexivity].
Defined.

Lemma compute_init_iteration_antitone_in_divisors_witness :
  compute_init_iteration 3200 100 1024 4 (Some 32) 8 = Ok 2
  /\ compute_init_iteration 3200 200 1024 4 (Some 32) 8 = Ok 1
  /\ 1 <= 2.
Proof.
  split; [vm_compute; reflexivity|]. split; [vm_compute; reflexivity|].
  apply (compute_init_iteration_antitone_in_divisors
           3200 100 200 1024 1024 4 4 32 8 2 1);
    [vm_compute; discriminate
     | split; [reflexivity | vm_compute; discriminate]
     | split; [reflexivity | vm_compute; discriminate]
     | split; [reflexivity | vm_compute; discriminate]
     | vm_compute; reflexivity | vm_compute; reflexivity].
Defined.

Lemma zero_divisor_raises_zero_division_error_witness :
  compute_init_iteration 1600 100 1024 0 (Some 32) 8 = Raise ZeroDivisionError.
Proof.
  apply (zero_divisor_raises_zero_division_error 1600 100 1024 0 32 8).
  right. split; [reflexivity|]. split; [vm_compute; discriminate|].
  right. split; [|reflexivity]. split; [reflexivity | vm_compute; discriminate].
Defined.

Lemma oversized_operand_raises_overflow_error_witness :
  compute_init_iteration 1600 100 1024 (2 ^ 1024) (Some 32) 8 = Raise OverflowError.
Proof.
  apply (oversized_operand_raises_overflow_error 1600 100 1024 (2 ^ 1024) 32 8).
  right. split; [reflexivity|]. split; [vm_compute; discriminate|].
  right. split; [|vm_compute; discriminate].
  split; [reflexivity | vm_compute; discriminate].
Defined.

(* ================================================================== *)
(** ** The training loop: traces *)

Section LoopFacts.
Context {P F W : Type} (sv : Services P F W).

Lemma clean_nil : clean (@nil (event P F)).
Proof. constructor. Qed.

Lemma clean_cons c (t : list (event P F)) : clean t -> clean (Event c None :: t).
Proof. intros H. constructor; auto. Qed.

Ltac run_step :=
  match goal with
  | |- context [serve ?s ?c ?v ?w] =>
      let e := fresh "e" in let w' := fresh "w" in let E := fresh "E" in
      destruct (serve s c v w) as [[[]|e] w'] eqn:E
  | |- context [learner_run ?s ?v ?w] =>
      let e := fresh "e" in let w' := fresh "w" in let v' := fresh "s" in
      let E := fresh "E" in
      destruct (learner_run s v w) as [[[[]|e] v'] w'] eqn:E
  | |- context [clock ?s ?w] =>
      let t := fresh "t" in let w' := fresh "w" in
      destruct (clock s w) as [t w']
  end;
  cbn [fst snd vars world trace].

Ltac clean_tac := repeat (apply clean_cons); apply clean_nil.

Ltac finish :=
  cbn [fst snd vars world trace];
  rewrite <- ?app_assoc; cbn [app];
  eexists; split; [reflexivity|];
  split;
  [ cbn [faithful];
    first [ clean_tac
          | right;
            match goal with
            | |- exists t0 c, ?l = _ /\ _ =>
                exists (removelast l); eexists; split; [reflexivity|cbn [removelast]; clean_tac]
            end ]
  | cbn [phases pushed_model_ids flat_map ev_call phase_of app variables
           snapshot_model_id String.eqb Ascii.eqb Bool.eqb];
    first [ split; [reflexivity|split; [eexists; eexists; eassumption|reflexivity]]
          | split; [eexists; reflexivity|];
            first [ left; reflexivity
                  | right; split; [eexists; eexists; eassumption|reflexivity] ] ] ].

Lemma train_iteration_summary i m :
  exists t, iteration_summary sv m (fst (train_iteration sv i m))
              (snd (train_iteration sv i m)) t.
Proof.
  unfold iteration_summary, train_iteration, push_variables, mbind, invoke, invoke_run,
    time_time, numpy, ran.
  cbn [fst snd vars world trace].
  run_step; [|finish].
  run_step.
  run_step; [|finish].
  run_step.
  run_step; [|finish].
  run_step; [|finish].
  run_step.
  run_step; [|finish].
  run_step; [|finish].
  run_step; [|finish].
  run_step; [|finish].
  run_step; [|finish].
  run_step; [|finish].
  run_step; [|finish].
  run_step; finish.
Qed.

(** *** Lists of events *)

Lemma phases_app (t1 t2 : list (event P F)) : phases (t1 ++ t2) = phases t1 ++ phases t2.
Proof. apply flat_map_app. Qed.

Lemma pushed_model_ids_app (t1 t2 : list (event P F)) :
  pushed_model_ids (t1 ++ t2) = pushed_model_ids t1 ++ pushed_model_ids t2.
Proof. apply flat_map_app. Qed.

Lemma clean_app (t1 t2 : list (event P F)) : clean t1 -> clean t2 -> clean (t1 ++ t2).
Proof. intros H1 H2. apply Forall_app; auto. Qed.

Lemma faithful_app {A} (r : result A) (t1 t2 : list (event P F)) :
  clean t1 -> faithful r t2 -> faithful r (t1 ++ t2).
Proof.
  intros H1 H2. destruct r as [a|e]; cbn [faithful] in *.
  - now apply clean_app.
  - destruct H2 as [H2|(t0 & c & -> & H2)].
    + left. now apply clean_app.
    + right. exists (t1 ++ t0), c. split; [now rewrite app_assoc|now apply clean_app].
Qed.

(** A trace without phases pushes nothing. *)
Lemma no_phase_no_push (t : list (event P F)) : phases t = [] -> pushed_model_ids t = [].
Proof.
  induction t as [|[c o] t IH]; [reflexivity|].
  unfold phases, pushed_model_ids in *. cbn [flat_map ev_call].
  intros H. apply app_eq_nil in H as [Hc Ht].
  rewrite (IH Ht). destruct c; try discriminate Hc; reflexivity.
Qed.

Lemma is_prefix_refl {A} (l : list A) : is_prefix l l.
Proof. exists []. now rewrite app_nil_r. Qed.

Lemma is_prefix_nil {A} (l : list A) : is_prefix [] l.
Proof. now exists l. Qed.

Lemma is_prefix_app_r {A} (l1 l2 l3 : list A) : is_prefix l1 l2 -> is_prefix l1 (l2 ++ l3).
Proof. intros [x ->]. exists (x ++ l3). now rewrite app_assoc. Qed.

Lemma is_prefix_app_l {A} (l l1 l2 : list A) : is_prefix l1 l2 -> is_prefix (l ++ l1) (l ++ l2).
Proof. intros [x ->]. exists x. now rewrite app_assoc. Qed.

Lemma count_cycles k : count_occ phase_eq_dec (cycles k) PURGE = k.
Proof.
  induction k as [|k IH]; [reflexivity|].
  unfold cycles in *. cbn [repeat List.concat]. rewrite count_occ_app, IH. reflexivity.
Qed.

Lemma length_py_range lo hi : length (py_range lo hi) = Z.to_nat (hi - lo).
Proof. unfold py_range. now rewrite length_map, length_seq. Qed.

Lemma initial_snapshot_phases s0 (t : list (event P F)) :
  initial_snapshot_pushed s0 t ->
  phases t = [PUBLISH] /\ pushed_model_ids t = [model_id s0].
Proof.
  intros (pre & p0 & o & post & -> & Hpre & Hpost).
  rewrite phases_app, pushed_model_ids_app, Hpre, (no_phase_no_push _ Hpre).
  change (Event (Push (variables s0 p0)) o :: post)
    with ([Event (Push (variables s0 p0)) o] ++ post).
  rewrite phases_app, pushed_model_ids_app, Hpost, (no_phase_no_push _ Hpost).
  split; reflexivity.
Qed.

(** *** The loop *)

Lemma for_each_cons i l (body : Z -> M unit) (m : machine P F W) :
  for_each (i :: l) body m =
  match body i m with
  | (Ok _, m1) => for_each l body m1
  | (Raise e, m1) => (Raise e, m1)
  end.
Proof. reflexivity. Qed.

Lemma for_each_summary l : forall m,
  exists t,
    trace (snd (for_each l (train_iteration sv) m)) = trace m ++ t /\
    faithful (fst (for_each l (train_iteration sv) m)) t /\
    is_prefix (phases t) (cycles (length l)) /\
    (fst (for_each l (train_iteration sv) m) = Ok tt ->
     phases t = cycles (length l)).
Proof.
  induction l as [|i l IH]; intros m.
  - exists []. cbn. rewrite app_nil_r. repeat split; auto using clean_nil, is_prefix_nil.
  - rewrite for_each_cons.
    destruct (train_iteration_summary i m) as (t1 & Ht & Hf & Hs).
    destruct (train_iteration sv i m) as [[[]|e] m1]; cbn [fst snd] in *.
    + destruct Hs as (Hp & _ & _).
      destruct (IH m1) as (t2 & Ht2 & Hf2 & Hp2 & Hok).
      exists (t1 ++ t2). rewrite Ht2, Ht, app_assoc, phases_app, Hp.
      repeat split; auto using faithful_app.
      * now apply (is_prefix_app_l cycle).
      * intros H. now rewrite (Hok H).
    + destruct Hs as (Hp & _).
      exists t1. repeat split; auto; [|discriminate].
      now apply (is_prefix_app_r (phases t1) cycle).
Qed.

(** *** The set-up that precedes the loop *)

Section Train.
Variables (sequence_length : Z) (rl_architecture : string)
  (per_replica_batch_size : option Z)
  (num_epochs num_iterations num_episodes_per_iteration : Z)
  (allow_variable_length_episodes : bool) (init_train_step : Z)
  (num_replicas_in_sync shuffle_buffer_episode_len : Z).

Ltac setup_fails :=
  left; eexists; eexists; eexists;
  split; [reflexivity|];
  cbn [fst snd vars world trace];
  rewrite <- ?app_assoc; cbn [app];
  split; [reflexivity|];
  split;
  [ cbn [faithful];
    first [ left; clean_tac
          | right;
            match goal with
            | |- exists t0 c, ?l = _ /\ _ =>
                exists (removelast l); eexists; split; [reflexivity|cbn [removelast]; clean_tac]
            end ]
  | first [ left; reflexivity
          | right;
            match goal with
            | |- initial_snapshot_pushed _ ?l =>
                exists (firstn 6 l); eexists; eexists; exists (skipn 7 l);
                split; [reflexivity|split; reflexivity]
            end ] ].

Ltac setup_done :=
  right; eexists; eexists;
  split; [reflexivity|];
  cbn [fst snd vars world trace];
  rewrite <- ?app_assoc; cbn [app];
  split; [reflexivity|];
  split; [reflexivity|];
  split; [clean_tac|];
  match goal with
  | |- initial_snapshot_pushed _ ?l =>
      exists (firstn 6 l); eexists; eexists; exists (skipn 7 l);
      split; [reflexivity|split; reflexivity]
  end.

Lemma train_setup it m :
  (compute_init_iteration init_train_step sequence_length
     num_episodes_per_iteration num_epochs per_replica_batch_size
     num_replicas_in_sync) = Ok it ->
  setup_outcome sv init_train_step num_iterations it m
    (train sv sequence_length rl_architecture per_replica_batch_size num_epochs
     num_iterations num_episodes_per_iteration allow_variable_length_episodes
     init_train_step num_replicas_in_sync shuffle_buffer_episode_len m).
Proof.
  intros Hit. unfold setup_outcome, train. rewrite Hit.
  unfold mbind, lift, create_variable, assign, push_variables, invoke.
  cbn [fst snd vars world trace].
  run_step; [|setup_fails].
  destruct ((int64_min <=? init_train_step) && (init_train_step <=? int64_max));
    [|setup_fails].
  cbn [fst snd vars world trace].
  run_step; [|setup_fails].
  destruct ((int64_min <=? it) && (it <=? int64_max)); [|setup_fails].
  cbn [fst snd vars world trace].
  destruct (String.eqb rl_architecture "generalization").
  - run_step; [|setup_fails].
    run_step; [|setup_fails].
    run_step; [|setup_fails].
    run_step; [|setup_fails].
    run_step; [|setup_fails].
    run_step; [|setup_fails].
    run_step; [|setup_fails].
    run_step; [|setup_fails].
    setup_done.
  - run_step; [|setup_fails].
    run_step; [|setup_fails].
    run_step; [|setup_fails].
    run_step; [|setup_fails].
    run_step; [|setup_fails].
    run_step; [|setup_fails].
    run_step; [|setup_fails].
    run_step; [|setup_fails].
    setup_done.
Qed.


(** The whole run, whatever its outcome: the calls made, in order. *)
Lemma train_summary it m :
  (compute_init_iteration init_train_step sequence_length
     num_episodes_per_iteration num_epochs per_replica_batch_size
     num_replicas_in_sync) = Ok it ->
  exists t,
    trace (snd (train sv sequence_length rl_architecture per_replica_batch_size num_epochs
     num_iterations num_episodes_per_iteration allow_variable_length_episodes
     init_train_step num_replicas_in_sync shuffle_buffer_episode_len m)) = trace m ++ t /\
    faithful (fst (train sv sequence_length rl_architecture per_replica_batch_size num_epochs
     num_iterations num_episodes_per_iteration allow_variable_length_episodes
     init_train_step num_replicas_in_sync shuffle_buffer_episode_len m)) t /\
    is_prefix (phases t) (PUBLISH :: cycles (length (py_range it num_iterations))) /\
    (phases t = [] \/
     exists pre p0 o post,
       t = pre ++ Event (Push (variables
                 {| train_step := init_train_step; model_id := it |} p0)) o :: post /\
       phases pre = [] /\
       is_prefix (phases post) (cycles (length (py_range it num_iterations)))) /\
    (fst (train sv sequence_length rl_architecture per_replica_batch_size num_epochs
     num_iterations num_episodes_per_iteration allow_variable_length_episodes
     init_train_step num_replicas_in_sync shuffle_buffer_episode_len m) = Ok tt ->
     exists pre p0 post,
       t = pre ++ Event (Push (variables
                 {| train_step := init_train_step; model_id := it |} p0)) None :: post /\
       phases pre = [] /\
       phases post = cycles (length (py_range it num_iterations))).
Proof.
  intros Hit.
  destruct (train_setup it m Hit)
    as [(e & m' & t & -> & Ht & Hf & Hp)|(mk & t & -> & Hv & Ht & Hc & Hp)].
  - exists t. cbn [fst snd]. repeat split; auto; [| |discriminate].
    + destruct Hp as [-> |Hp]; [apply is_prefix_nil|].
      apply initial_snapshot_phases in Hp as [-> _].
      now exists (cycles (length (py_range it num_iterations))).
    + destruct Hp as [Hp|(pre & p0 & o & post & -> & Hpre & Hpost)]; [now left|].
      right. exists pre, p0, o, post. rewrite Hpost.
      repeat split; auto using is_prefix_nil.
  - destruct (for_each_summary (py_range it num_iterations) mk)
      as (t2 & Ht2 & Hf2 & Hp2 & Hok).
    exists (t ++ t2). rewrite Ht2, Ht, app_assoc.
    destruct (initial_snapshot_phases _ _ Hp) as [Hph _].
    rewrite phases_app, Hph.
    destruct Hp as (pre & p0 & o & post & -> & Hpre & Hpost).
    repeat split; auto using faithful_app.
    + now apply (is_prefix_app_l [PUBLISH]).
    + right. exists pre, p0, o, (post ++ t2). rewrite <- app_assoc. cbn [app].
      repeat split; auto. now rewrite phases_app, Hpost.
    + intros H. specialize (Hok H).
      assert (o = None) as ->.
      { apply Forall_app in Hc as [_ Hc]. now inversion Hc. }
      exists pre, p0, (post ++ t2). rewrite <- app_assoc. cbn [app].
      repeat split; auto. now rewrite phases_app, Hpost, Hok.
Qed.

Lemma train_raises e m :
  (compute_init_iteration init_train_step sequence_length
     num_episodes_per_iteration num_epochs per_replica_batch_size
     num_replicas_in_sync) = Raise e ->
  (train sv sequence_length rl_architecture per_replica_batch_size num_epochs
     num_iterations num_episodes_per_iteration allow_variable_length_episodes
     init_train_step num_replicas_in_sync shuffle_buffer_episode_len m) = (Raise e, m).
Proof. intros H. unfold train. now rewrite H. Qed.

Lemma faithful_failed_last {A} (r : result A) (t pre post : list (event P F)) ev e :
  faithful r t -> t = pre ++ ev :: post -> ev_raised ev = Some e ->
  post = [] /\ r = Raise e.
Proof.
  intros Hf -> He.
  assert (Hdirty : ~ clean (pre ++ ev :: post)).
  { intros H. apply Forall_app in H as [_ H]. inversion H; congruence. }
  destruct r as [a|e']; cbn [faithful] in Hf; [contradiction|].
  destruct Hf as [Hf|(t0 & c & Heq & Hc)]; [contradiction|].
  destruct post as [|x post] using rev_ind.
  - apply app_inj_tail in Heq as [_ ->]. cbn in He. split; congruence.
  - clear IHpost. exfalso.
    change (pre ++ ev :: post ++ [x]) with (pre ++ (ev :: post) ++ [x]) in Heq.
    rewrite app_assoc in Heq. apply app_inj_tail in Heq as [<- _].
    apply Forall_app in Hc as [_ Hc]. inversion Hc; congruence.
Qed.

Lemma train_faithful m :
  exists t, trace (snd (train sv sequence_length rl_architecture per_replica_batch_size num_epochs
     num_iterations num_episodes_per_iteration allow_variable_length_episodes
     init_train_step num_replicas_in_sync shuffle_buffer_episode_len m)) = trace m ++ t /\ faithful (fst (train sv sequence_length rl_architecture per_replica_batch_size num_epochs
     num_iterations num_episodes_per_iteration allow_variable_length_episodes
     init_train_step num_replicas_in_sync shuffle_buffer_episode_len m)) t.
Proof.
  destruct (compute_init_iteration init_train_step sequence_length
     num_episodes_per_iteration num_epochs per_replica_batch_size
     num_replicas_in_sync) as [it|e] eqn:H.
  - destruct (train_summary it m H) as (t & Ht & Hf & _). now exists t.
  - rewrite (train_raises e m H). exists []. cbn. rewrite app_nil_r.
    split; auto. left. apply clean_nil.
Qed.


(** *** The claims about [train] *)

(** C2.  After the initial push, the phases of a run are whole cycles
    wait_for_data, learner.run, variable_container.push,
    reverb_replay_train.clear, in that order, one cycle per element of
    [range(init_iteration, num_iterations)]: a run that raises has made an
    initial segment of them, a run that returns has made them all, with
    one clear per iteration. *)
Theorem loop_phases_in_order it m :
  (compute_init_iteration init_train_step sequence_length
     num_episodes_per_iteration num_epochs per_replica_batch_size
     num_replicas_in_sync) = Ok it ->
  exists t,
    trace (snd (train sv sequence_length rl_architecture per_replica_batch_size num_epochs
     num_iterations num_episodes_per_iteration allow_variable_length_episodes
     init_train_step num_replicas_in_sync shuffle_buffer_episode_len m)) = trace m ++ t /\
    is_prefix (phases t) (PUBLISH :: cycles (length (py_range it num_iterations))) /\
    (fst (train sv sequence_length rl_architecture per_replica_batch_size num_epochs
     num_iterations num_episodes_per_iteration allow_variable_length_episodes
     init_train_step num_replicas_in_sync shuffle_buffer_episode_len m) = Ok tt ->
     phases t = PUBLISH :: cycles (length (py_range it num_iterations)) /\
     count_occ phase_eq_dec (phases t) PURGE = length (py_range it num_iterations)).
Proof.
  intros Hit.
  destruct (train_summary it m Hit) as (t & Ht & _ & Hp & _ & Hok).
  exists t. split; [exact Ht|]. split; [exact Hp|].
  intros Hr. destruct (Hok Hr) as (pre & p0 & post & -> & Hpre & Hpost).
  change (Event (Push (variables {| train_step := init_train_step; model_id := it |} p0))
            None :: post)
    with ([Event (Push (variables {| train_step := init_train_step; model_id := it |} p0))
             None] ++ post).
  rewrite !phases_app, Hpre, Hpost. split; [reflexivity|].
  cbn [phases flat_map ev_call phase_of app count_occ].
  destruct (phase_eq_dec PUBLISH PURGE); [discriminate|]. apply count_cycles.
Qed.

(** C4.  If [sequence_length], [num_episodes_per_iteration] or
    [num_epochs] is zero, [train] raises before it has called anything:
    the exception is the one [compute_init_iteration] raises, a
    [ZeroDivisionError], or an [OverflowError] or [TypeError] met earlier
    in the same expression. *)
Theorem zero_divisor_aborts_train m :
  sequence_length = 0 \/ num_episodes_per_iteration = 0 \/ num_epochs = 0 ->
  exists ex,
    (train sv sequence_length rl_architecture per_replica_batch_size num_epochs
     num_iterations num_episodes_per_iteration allow_variable_length_episodes
     init_train_step num_replicas_in_sync shuffle_buffer_episode_len m) = (Raise ex, m) /\
    (ex = ZeroDivisionError \/ ex = OverflowError \/ ex = TypeError).
Proof.
  intros Hz.
  destruct (zero_divisor_raises init_train_step sequence_length
              num_episodes_per_iteration num_epochs per_replica_batch_size
              num_replicas_in_sync) as (ex & Hex & Hk); [tauto|].
  exists ex. split; [now apply train_raises|assumption].
Qed.

(** C7.  A call that raises is the last call of the run, and [train]
    raises its exception: nothing in [train] catches it, whether the call
    belongs to the training itself or to its timing, logging and
    summaries. *)
Theorem failed_call_aborts_train m pre ev post e :
  trace (snd (train sv sequence_length rl_architecture per_replica_batch_size num_epochs
     num_iterations num_episodes_per_iteration allow_variable_length_episodes
     init_train_step num_replicas_in_sync shuffle_buffer_episode_len m)) = trace m ++ pre ++ ev :: post ->
  ev_raised ev = Some e ->
  post = [] /\ fst (train sv sequence_length rl_architecture per_replica_batch_size num_epochs
     num_iterations num_episodes_per_iteration allow_variable_length_episodes
     init_train_step num_replicas_in_sync shuffle_buffer_episode_len m) = Raise e.
Proof.
  intros Ht He.
  destruct (train_faithful m) as (t & Ht' & Hf).
  rewrite Ht' in Ht. apply app_inv_head in Ht.
  exact (faithful_failed_last _ t pre post ev e Hf Ht He).
Qed.

(** C9.  The first phase of any run of [train] is a push of the full
    snapshot [{policy, train_step, model_id}] with [train_step =
    init_train_step] and [model_id = init_iteration]; it comes before every
    phase of the loop.  A run that returns has made it, and when
    [init_iteration >= num_iterations] it is the only push of the run. *)
Theorem initial_push it m :
  (compute_init_iteration init_train_step sequence_length
     num_episodes_per_iteration num_epochs per_replica_batch_size
     num_replicas_in_sync) = Ok it ->
  exists t,
    trace (snd (train sv sequence_length rl_architecture per_replica_batch_size num_epochs
     num_iterations num_episodes_per_iteration allow_variable_length_episodes
     init_train_step num_replicas_in_sync shuffle_buffer_episode_len m)) = trace m ++ t /\
    (phases t = [] \/
     exists pre p0 o post,
       t = pre ++ Event (Push [("policy"%string, VPolicy p0);
                               ("train_step"%string, VInt init_train_step);
                               ("model_id"%string, VInt it)]) o :: post /\
       phases pre = [] /\
       is_prefix (phases post) (cycles (length (py_range it num_iterations)))) /\
    (fst (train sv sequence_length rl_architecture per_replica_batch_size num_epochs
     num_iterations num_episodes_per_iteration allow_variable_length_episodes
     init_train_step num_replicas_in_sync shuffle_buffer_episode_len m) = Ok tt ->
     exists pre p0 post,
       t = pre ++ Event (Push [("policy"%string, VPolicy p0);
                               ("train_step"%string, VInt init_train_step);
                               ("model_id"%string, VInt it)]) None :: post /\
       phases pre = [] /\
       phases post = cycles (length (py_range it num_iterations)) /\
       (num_iterations <= it -> phases t = [PUBLISH])).
Proof.
  intros Hit.
  destruct (train_summary it m Hit) as (t & Ht & _ & _ & Hany & Hok).
  exists t. split; [exact Ht|]. split; [exact Hany|].
  intros Hr. destruct (Hok Hr) as (pre & p0 & post & -> & Hpre & Hpost).
  exists pre, p0, post. split; [reflexivity|]. split; [exact Hpre|].
  split; [exact Hpost|]. intros Hle.
  change (Event (Push (variables {| train_step := init_train_step; model_id := it |} p0))
            None :: post)
    with ([Event (Push (variables {| train_step := init_train_step; model_id := it |} p0))
             None] ++ post).
  rewrite !phases_app, Hpre, Hpost, length_py_range.
  replace (Z.to_nat (num_iterations - it)) with 0%nat by lia. reflexivity.
Qed.

(** *** The loop body in detail *)

Ltac details_done :=
  cbn [fst snd vars world trace];
  rewrite <- ?app_assoc; cbn [app];
  eexists; split; [reflexivity|];
  split; [reflexivity|];
  cbn [logged_iterations pushed_snapshots summary_steps summaries_of flat_map
         ev_call app variables snapshot_train_step String.eqb Ascii.eqb Bool.eqb];
  first
    [ (* the body returned *)
      split; [reflexivity|];
      eexists; eexists; eexists;
      split; [eassumption|split; reflexivity]
    | (* it raised *)
      split; [first [exists []; reflexivity | eexists; reflexivity]|];
      first
        [ left; split; reflexivity
        | right; eexists; eexists; eexists;
          split; [eassumption|];
          split; [reflexivity|];
          first [ eexists; cbn [app]; reflexivity ] ] ].

Lemma train_iteration_details i m :
  exists t, iteration_details sv i m (fst (train_iteration sv i m))
              (snd (train_iteration sv i m)) t.
Proof.
  unfold iteration_details, train_iteration, push_variables, mbind, invoke,
    invoke_run, time_time, numpy.
  cbn [fst snd vars world trace].
  run_step; [|details_done].
  run_step.
  run_step; [|details_done].
  run_step.
  run_step; [|details_done].
  run_step; [|details_done].
  run_step.
  run_step; [|details_done].
  run_step; [|details_done].
  run_step; [|details_done].
  run_step; [|details_done].
  run_step; [|details_done].
  run_step; [|details_done].
  run_step; [|details_done].
  run_step; details_done.
Qed.

Lemma pushed_snapshots_app (t1 t2 : list (event P F)) :
  pushed_snapshots (t1 ++ t2) = pushed_snapshots t1 ++ pushed_snapshots t2.
Proof. apply flat_map_app. Qed.

Lemma logged_iterations_app (t1 t2 : list (event P F)) :
  logged_iterations (t1 ++ t2) = logged_iterations t1 ++ logged_iterations t2.
Proof. apply flat_map_app. Qed.

Lemma summary_steps_app (t1 t2 : list (event P F)) :
  summary_steps (t1 ++ t2) = summary_steps t1 ++ summary_steps t2.
Proof. apply flat_map_app. Qed.

Lemma summaries_of_app (l1 l2 : list (list (string * value P))) :
  summaries_of (l1 ++ l2) = summaries_of l1 ++ summaries_of l2.
Proof. apply flat_map_app. Qed.

Lemma constructions_app (t1 t2 : list (event P F)) :
  constructions (t1 ++ t2) = constructions t1 ++ constructions t2.
Proof. unfold constructions. now rewrite map_app, filter_app. Qed.

(** The loop in detail: what any run of it, complete or not, has logged,
    pushed and summarised. *)
Lemma for_each_details l : forall m,
  exists t,
    trace (snd (for_each l (train_iteration sv) m)) = trace m ++ t /\
    constructions t = [] /\
    run_chain sv (vars m) (pushed_snapshots t) /\
    is_prefix (logged_iterations t) l /\
    is_prefix (summary_steps t) (summaries_of (pushed_snapshots t)) /\
    (fst (for_each l (train_iteration sv) m) = Ok tt ->
     logged_iterations t = l /\
     summary_steps t = summaries_of (pushed_snapshots t)).
Proof.
  induction l as [|i l IH]; intros m.
  - exists []. cbn. rewrite app_nil_r.
    repeat split; auto using is_prefix_nil. constructor.
  - rewrite for_each_cons.
    destruct (train_iteration_details i m) as (t1 & Ht & Hc & Hd).
    destruct (train_iteration sv i m) as [[[]|e] m1]; cbn [fst snd] in *.
    + destruct Hd as (Hl & w & w' & p & Hr & Hp & Hs).
      destruct (IH m1) as (t2 & Ht2 & Hc2 & Hch & Hl2 & Hs2 & Hok).
      exists (t1 ++ t2).
      rewrite Ht2, Ht, app_assoc, constructions_app, pushed_snapshots_app,
        logged_iterations_app, summary_steps_app, summaries_of_app, Hc, Hc2, Hl, Hp, Hs.
      split; [reflexivity|]. split; [reflexivity|].
      split; [econstructor; eassumption|].
      split; [now apply (is_prefix_app_l [i])|].
      split; [now apply is_prefix_app_l|].
      intros H. destruct (Hok H) as [-> ->]. split; reflexivity.
    + destruct Hd as (Hl & Hd).
      exists t1. split; [exact Ht|]. split; [exact Hc|].
      assert (Hl' : is_prefix (logged_iterations t1) (i :: l))
        by (apply (is_prefix_app_r _ [i] l); exact Hl).
      destruct Hd as [[Hp Hs]|(w & w' & p & Hr & Hp & Hs)].
      * rewrite Hp, Hs. repeat split; auto using is_prefix_nil; try discriminate.
        constructor.
      * rewrite Hp. repeat split; auto; try discriminate.
        econstructor; [eassumption|constructor].
Qed.

(** *** The set-up and the whole run in detail *)

Ltac details_setup_fails :=
  left; eexists; eexists; eexists;
  split; [reflexivity|];
  cbn [fst snd vars world trace];
  rewrite <- ?app_assoc; cbn [app];
  split; [reflexivity|];
  split; [eexists; cbn; reflexivity|];
  split; [reflexivity|];
  split; [reflexivity|];
  first [left; reflexivity | right; eexists; reflexivity].

Ltac details_setup_done :=
  right; eexists; eexists;
  split; [reflexivity|];
  cbn [fst snd vars world trace];
  rewrite <- ?app_assoc; cbn [app];
  split; [reflexivity|];
  split; [reflexivity|];
  split; [reflexivity|];
  split; [reflexivity|];
  split; [reflexivity|];
  eexists; reflexivity.

Lemma train_setup_details it m :
  (compute_init_iteration init_train_step sequence_length
     num_episodes_per_iteration num_epochs per_replica_batch_size
     num_replicas_in_sync) = Ok it ->
  setup_details sv init_train_step num_iterations it
    (constructed sequence_length rl_architecture per_replica_batch_size
       num_epochs num_episodes_per_iteration allow_variable_length_episodes
       shuffle_buffer_episode_len)
    m (train sv sequence_length rl_architecture per_replica_batch_size num_epochs
     num_iterations num_episodes_per_iteration allow_variable_length_episodes
     init_train_step num_replicas_in_sync shuffle_buffer_episode_len m).
Proof.
  intros Hit. unfold setup_details, constructed, train. rewrite Hit.
  unfold mbind, lift, create_variable, assign, push_variables, invoke.
  cbn [fst snd vars world trace].
  run_step; [|details_setup_fails].
  destruct ((int64_min <=? init_train_step) && (init_train_step <=? int64_max));
    [|details_setup_fails].
  cbn [fst snd vars world trace].
  run_step; [|details_setup_fails].
  destruct ((int64_min <=? it) && (it <=? int64_max)); [|details_setup_fails].
  cbn [fst snd vars world trace].
  destruct (String.eqb rl_architecture "generalization").
  - run_step; [|details_setup_fails].
    run_step; [|details_setup_fails].
    run_step; [|details_setup_fails].
    run_step; [|details_setup_fails].
    run_step; [|details_setup_fails].
    run_step; [|details_setup_fails].
    run_step; [|details_setup_fails].
    run_step; [|details_setup_fails].
    details_setup_done.
  - run_step; [|details_setup_fails].
    run_step; [|details_setup_fails].
    run_step; [|details_setup_fails].
    run_step; [|details_setup_fails].
    run_step; [|details_setup_fails].
    run_step; [|details_setup_fails].
    run_step; [|details_setup_fails].
    run_step; [|details_setup_fails].
    details_setup_done.
Qed.

(** The whole run in detail. *)
Lemma train_details it m :
  (compute_init_iteration init_train_step sequence_length
     num_episodes_per_iteration num_epochs per_replica_batch_size
     num_replicas_in_sync) = Ok it ->
  exists t,
    trace (snd (train sv sequence_length rl_architecture per_replica_batch_size num_epochs
     num_iterations num_episodes_per_iteration allow_variable_length_episodes
     init_train_step num_replicas_in_sync shuffle_buffer_episode_len m)) = trace m ++ t /\
    is_prefix (constructions t)
      (constructed sequence_length rl_architecture per_replica_batch_size
         num_epochs num_episodes_per_iteration allow_variable_length_episodes
         shuffle_buffer_episode_len) /\
    is_prefix (logged_iterations t) (py_range it num_iterations) /\
    is_prefix (summary_steps t) (summaries_of (tl (pushed_snapshots t))) /\
    (pushed_snapshots t = [] \/
     exists p0 rest,
       pushed_snapshots t
       = variables {| train_step := init_train_step; model_id := it |} p0 :: rest /\
       run_chain sv {| train_step := init_train_step; model_id := it |} rest) /\
    (fst (train sv sequence_length rl_architecture per_replica_batch_size num_epochs
     num_iterations num_episodes_per_iteration allow_variable_length_episodes
     init_train_step num_replicas_in_sync shuffle_buffer_episode_len m) = Ok tt ->
     constructions t
     = constructed sequence_length rl_architecture per_replica_batch_size
         num_epochs num_episodes_per_iteration allow_variable_length_episodes
         shuffle_buffer_episode_len /\
     logged_iterations t = py_range it num_iterations /\
     summary_steps t = summaries_of (tl (pushed_snapshots t))).
Proof.
  intros Hit.
  destruct (train_setup_details it m Hit)
    as [(e & m' & t & -> & Ht & Hc & Hl & Hs & Hp)
       |(mk & t & -> & Hv & Ht & Hc & Hl & Hs & p0 & Hp)].
  - exists t. cbn [fst snd]. split; [exact Ht|]. split; [exact Hc|].
    split; [rewrite Hl; apply is_prefix_nil|].
    split; [rewrite Hs; apply is_prefix_nil|].
    split; [|discriminate].
    destruct Hp as [Hp|[p0 Hp]]; [now left|].
    right. exists p0, []. split; [exact Hp|]. constructor.
  - destruct (for_each_details (py_range it num_iterations) mk)
      as (t2 & Ht2 & Hc2 & Hch & Hl2 & Hs2 & Hok).
    rewrite Hv in Hch.
    exists (t ++ t2).
    rewrite Ht2, Ht, app_assoc, constructions_app, logged_iterations_app,
      pushed_snapshots_app, summary_steps_app, Hc, Hc2, Hl, Hs, Hp, app_nil_r.
    cbn [app tl].
    split; [reflexivity|]. split; [apply is_prefix_refl|]. split; [exact Hl2|].
    split; [exact Hs2|].
    split.
    + right. exists p0, (pushed_snapshots t2). split; [reflexivity|exact Hch].
    + intros H. destruct (Hok H) as [-> ->].
      split; [reflexivity|]. split; reflexivity.
Qed.

(** X10.  What the loop publishes is what [learner.run()] returned.  The
    first push of a run carries [train_step = init_train_step] and
    [model_id = init_iteration]; every later push carries the two
    variables exactly as a successful [learner.run()] left them, and that
    call started from the variables of the push before: between two
    pushes nothing but [learner.run()] changes them. *)
Theorem loop_pushes_chain_through_learner_run it m :
  (compute_init_iteration init_train_step sequence_length
     num_episodes_per_iteration num_epochs per_replica_batch_size
     num_replicas_in_sync) = Ok it ->
  exists t,
    trace (snd (train sv sequence_length rl_architecture per_replica_batch_size num_epochs
     num_iterations num_episodes_per_iteration allow_variable_length_episodes
     init_train_step num_replicas_in_sync shuffle_buffer_episode_len m)) = trace m ++ t /\
    (pushed_snapshots t = [] \/
     exists p0 rest,
       pushed_snapshots t
       = variables {| train_step := init_train_step; model_id := it |} p0 :: rest /\
       run_chain sv {| train_step := init_train_step; model_id := it |} rest).
Proof.
  intros Hit. destruct (train_details it m Hit) as (t & Ht & _ & _ & _ & Hp & _).
  now exists t.
Qed.

(** X11.  [train] constructs its collaborators once, before the loop and
    in this order: the agent (the GRL one exactly when [rl_architecture]
    is ['generalization'], the fully connected one for any other string),
    the saved-model trigger with [start = -num_episodes_per_iteration] and
    [interval = num_episodes_per_iteration], the variable container, the
    replay buffer, the step-per-second trigger with interval [200], and
    the learner with [shuffle_buffer_size = shuffle_buffer_episode_len *
    sequence_length].  A run that raises has constructed an initial
    segment of them; the loop constructs nothing. *)
Theorem objects_constructed_once it m :
  (compute_init_iteration init_train_step sequence_length
     num_episodes_per_iteration num_epochs per_replica_batch_size
     num_replicas_in_sync) = Ok it ->
  exists t,
    trace (snd (train sv sequence_length rl_architecture per_replica_batch_size num_epochs
     num_iterations num_episodes_per_iteration allow_variable_length_episodes
     init_train_step num_replicas_in_sync shuffle_buffer_episode_len m)) = trace m ++ t /\
    is_prefix (constructions t)
      (constructed sequence_length rl_architecture per_replica_batch_size
         num_epochs num_episodes_per_iteration allow_variable_length_episodes
         shuffle_buffer_episode_len) /\
    (fst (train sv sequence_length rl_architecture per_replica_batch_size num_epochs
     num_iterations num_episodes_per_iteration allow_variable_length_episodes
     init_train_step num_replicas_in_sync shuffle_buffer_episode_len m) = Ok tt ->
     constructions t
     = constructed sequence_length rl_architecture per_replica_batch_size
         num_epochs num_episodes_per_iteration allow_variable_length_episodes
         shuffle_buffer_episode_len).
Proof.
  intros Hit. destruct (train_details it m Hit) as (t & Ht & Hc & _ & _ & _ & Hok).
  exists t. split; [exact Ht|]. split; [exact Hc|].
  intros H. now destruct (Hok H).
Qed.

(** X12.  The iterations announced by ['Training. Iteration: %d'] are
    the elements of [range(init_iteration, num_iterations)], in order and
    once each: all of them when [train] returns, an initial segment when
    it raises. *)
Theorem iterations_logged_in_order it m :
  (compute_init_iteration init_train_step sequence_length
     num_episodes_per_iteration num_epochs per_replica_batch_size
     num_replicas_in_sync) = Ok it ->
  exists t,
    trace (snd (train sv sequence_length rl_architecture per_replica_batch_size num_epochs
     num_iterations num_episodes_per_iteration allow_variable_length_episodes
     init_train_step num_replicas_in_sync shuffle_buffer_episode_len m)) = trace m ++ t /\
    is_prefix (logged_iterations t) (py_range it num_iterations) /\
    (fst (train sv sequence_length rl_architecture per_replica_batch_size num_epochs
     num_iterations num_episodes_per_iteration allow_variable_length_episodes
     init_train_step num_replicas_in_sync shuffle_buffer_episode_len m) = Ok tt ->
     logged_iterations t = py_range it num_iterations).
Proof.
  intros Hit. destruct (train_details it m Hit) as (t & Ht & _ & Hl & _ & _ & Hok).
  exists t. split; [exact Ht|]. split; [exact Hl|].
  intros H. now destruct (Hok H) as (_ & ? & _).
Qed.

(** X13.  Every iteration writes its two summaries,
    ['data_wait_time_sec'] and ['step_per_sec'], at the [train_step] it
    has just pushed; the initial push has no summaries.  A run that raises
    has written an initial segment of them. *)
Theorem summaries_use_pushed_train_step it m :
  (compute_init_iteration init_train_step sequence_length
     num_episodes_per_iteration num_epochs per_replica_batch_size
     num_replicas_in_sync) = Ok it ->
  exists t,
    trace (snd (train sv sequence_length rl_architecture per_replica_batch_size num_epochs
     num_iterations num_episodes_per_iteration allow_variable_length_episodes
     init_train_step num_replicas_in_sync shuffle_buffer_episode_len m)) = trace m ++ t /\
    is_prefix (summary_steps t) (summaries_of (tl (pushed_snapshots t))) /\
    (fst (train sv sequence_length rl_architecture per_replica_batch_size num_epochs
     num_iterations num_episodes_per_iteration allow_variable_length_episodes
     init_train_step num_replicas_in_sync shuffle_buffer_episode_len m) = Ok tt ->
     summary_steps t = summaries_of (tl (pushed_snapshots t))).
Proof.
  intros Hit. destruct (train_details it m Hit) as (t & Ht & _ & _ & Hs & _ & Hok).
  exists t. split; [exact Ht|]. split; [exact Hs|].
  intros H. now destruct (Hok H) as (_ & _ & ?).
Qed.

End Train.
End LoopFacts.

(* ================================================================== *)
(** ** The claims about [train], on the test doubles *)

Lemma loop_phases_in_order_witness :
  exists t,
    trace (snd (train Stub.reliable 100 "generalization" (Some 32) 4 2 1024
                  false 0 8 3 Stub.boot)) = trace Stub.boot ++ t /\
    is_prefix (phases t) (PUBLISH :: cycles (length (py_range 0 2))) /\
    (fst (train Stub.reliable 100 "generalization" (Some 32) 4 2 1024
            false 0 8 3 Stub.boot) = Ok tt ->
     phases t = PUBLISH :: cycles (length (py_range 0 2)) /\
     count_occ phase_eq_dec (phases t) PURGE = length (py_range 0 2)).
Proof.
  apply (loop_phases_in_order Stub.reliable 100 "generalization" (Some 32) 4 2
           1024 false 0 8 3 0 Stub.boot).
  vm_compute. reflexivity.
Defined.

Lemma zero_divisor_aborts_train_witness :
  exists ex,
    train Stub.reliable 0 "generalization" (Some 32) 4 2 1024 false 0 8 3
      Stub.boot = (Raise ex, Stub.boot) /\
    (ex = ZeroDivisionError \/ ex = OverflowError \/ ex = TypeError).
Proof.
  apply (zero_divisor_aborts_train Stub.reliable 0 "generalization" (Some 32) 4
           2 1024 false 0 8 3 Stub.boot).
  left. reflexivity.
Defined.

(** C4, as stated, fails: a zero [sequence_length] surfaces as the bare
    [ZeroDivisionError] of the division, and a negative one is not
    noticed at all, so that the loop is entered. *)
Lemma no_configuration_check :
  fst (train Stub.reliable 0 "generalization" (Some 32) 4 2 1024 false 0 8 3
         Stub.boot) = Raise ZeroDivisionError
  /\ fst (train Stub.reliable (-100) "generalization" (Some 32) 4 1 1024
            false 0 8 3 Stub.boot) = Ok tt
  /\ phases (trace (snd (train Stub.reliable (-100) "generalization" (Some 32)
                           4 1 1024 false 0 8 3 Stub.boot)))
     = [PUBLISH; WAIT; TRAIN; PUBLISH; PURGE].
Proof.
  split; [vm_compute; reflexivity|]. split; vm_compute; reflexivity.
Qed.

Lemma failed_call_aborts_train_witness :
  @nil (event Z Z) = [] /\
  fst (train Stub.summary_fails 100 "generalization" (Some 32) 4 2 1024 false
         0 8 3 Stub.boot) = Raise (ServiceError "unavailable").
Proof.
  apply (failed_call_aborts_train Stub.summary_fails 100 "generalization"
           (Some 32) 4 2 1024 false 0 8 3 Stub.boot
           (removelast
              (trace (snd (train Stub.summary_fails 100 "generalization"
                             (Some 32) 4 2 1024 false 0 8 3 Stub.boot))))
           (last
              (trace (snd (train Stub.summary_fails 100 "generalization"
                             (Some 32) 4 2 1024 false 0 8 3 Stub.boot)))
              (Event Clear None))
           [] (ServiceError "unavailable")).
  - vm_compute. reflexivity.
  - vm_compute. reflexivity.
Defined.

(** C7, as stated, fails: when the first summary write raises, [train]
    raises with it, and of the two iterations asked for only the first
    has run. *)
Lemma summary_failure_not_swallowed :
  fst (train Stub.summary_fails 100 "generalization" (Some 32) 4 2 1024 false
         0 8 3 Stub.boot) = Raise (ServiceError "unavailable")
  /\ length (py_range 0 2) = 2%nat
  /\ phases (trace (snd (train Stub.summary_fails 100 "generalization"
                            (Some 32) 4 2 1024 false 0 8 3 Stub.boot)))
     = [PUBLISH; WAIT; TRAIN; PUBLISH; PURGE].
Proof.
  split; [vm_compute; reflexivity|]. split; [reflexivity|].
  vm_compute. reflexivity.
Qed.

Lemma initial_push_witness :
  exists t,
    trace (snd (train Stub.reliable 100 "generalization" (Some 32) 4 2 1024
                  false 3200 8 3 Stub.boot)) = trace Stub.boot ++ t /\
    (phases t = [] \/
     exists pre p0 o post,
       t = pre ++ Event (Push [("policy"%string, VPolicy p0);
                               ("train_step"%string, VInt 3200);
                               ("model_id"%string, VInt 2)]) o :: post /\
       phases pre = [] /\
       is_prefix (phases post) (cycles (length (py_range 2 2)))) /\
    (fst (train Stub.reliable 100 "generalization" (Some 32) 4 2 1024
            false 3200 8 3 Stub.boot) = Ok tt ->
     exists pre p0 post,
       t = pre ++ Event (Push [("policy"%string, VPolicy p0);
                               ("train_step"%string, VInt 3200);
                               ("model_id"%string, VInt 2)]) None :: post /\
       phases pre = [] /\
       phases post = cycles (length (py_range 2 2)) /\
       (2 <= 2 -> phases t = [PUBLISH])).
Proof.
  apply (initial_push Stub.reliable 100 "generalization" (Some 32) 4 2 1024
           false 3200 8 3 2 Stub.boot).
  vm_compute. reflexivity.
Defined.

(* ================================================================== *)
(** ** The run in detail, on the test doubles *)

Lemma loop_pushes_chain_through_learner_run_witness :
  exists t,
    trace (snd (train Stub.reliable 100 "generalization" (Some 32) 4 2 1024
                  false 0 8 3 Stub.boot)) = trace Stub.boot ++ t /\
    (pushed_snapshots t = [] \/
     exists p0 rest,
       pushed_snapshots t
       = variables {| train_step := 0; model_id := 0 |} p0 :: rest /\
       run_chain Stub.reliable {| train_step := 0; model_id := 0 |} rest).
Proof.
  apply (loop_pushes_chain_through_learner_run Stub.reliable 100 "generalization"
           (Some 32) 4 2 1024 false 0 8 3 0 Stub.boot).
  vm_compute. reflexivity.
Defined.

Lemma objects_constructed_once_witness :
  exists t,
    trace (snd (train Stub.reliable 100 "generalization" (Some 32) 4 2 1024
                  false 0 8 3 Stub.boot)) = trace Stub.boot ++ t /\
    is_prefix (constructions t)
      (constructed 100 "generalization" (Some 32) 4 1024 false 3) /\
    (fst (train Stub.reliable 100 "generalization" (Some 32) 4 2 1024
            false 0 8 3 Stub.boot) = Ok tt ->
     constructions t = constructed 100 "generalization" (Some 32) 4 1024 false 3).
Proof.
  apply (objects_constructed_once Stub.reliable 100 "generalization"
           (Some 32) 4 2 1024 false 0 8 3 0 Stub.boot).
  vm_compute. reflexivity.
Defined.

Lemma iterations_logged_in_order_witness :
  exists t,
    trace (snd (train Stub.reliable 100 "generalization" (Some 32) 4 2 1024
                  false 0 8 3 Stub.boot)) = trace Stub.boot ++ t /\
    is_prefix (logged_iterations t) (py_range 0 2) /\
    (fst (train Stub.reliable 100 "generalization" (Some 32) 4 2 1024
            false 0 8 3 Stub.boot) = Ok tt ->
     logged_iterations t = py_range 0 2).
Proof.
  apply (iterations_logged_in_order Stub.reliable 100 "generalization"
           (Some 32) 4 2 1024 false 0 8 3 0 Stub.boot).
  vm_compute. reflexivity.
Defined.

Lemma summaries_use_pushed_train_step_witness :
  exists t,
    trace (snd (train Stub.reliable 100 "generalization" (Some 32) 4 2 1024
                  false 0 8 3 Stub.boot)) = trace Stub.boot ++ t /\
    is_prefix (summary_steps t) (summaries_of (tl (pushed_snapshots t))) /\
    (fst (train Stub.reliable 100 "generalization" (Some 32) 4 2 1024
            false 0 8 3 Stub.boot) = Ok tt ->
     summary_steps t = summaries_of (tl (pushed_snapshots t))).
Proof.
  apply (summaries_use_pushed_train_step Stub.reliable 100 "generalization"
           (Some 32) 4 2 1024 false 0 8 3 0 Stub.boot).
  vm_compute. reflexivity.
Defined.

(* ================================================================== *)
(** ** The dataset functions: properties *)

Lemma nest_induction {A} (Q : nest A -> Prop) :
  (forall a, Q (Leaf a)) ->
  (forall items, Forall Q items -> Q (Nested items)) ->
  forall n, Q n.
Proof.
  intros HL HN. fix IH 1. intros [a|items].
  - apply HL.
  - apply HN. induction items as [|x items IHi]; constructor.
    + apply IH.
    + exact IHi.
Qed.

Lemma flatten_map_structure {A B} (f : A -> B) (n : nest A) :
  flatten (map_structure f n) = map f (flatten n).
Proof.
  induction n as [a|items IH] using nest_induction; [reflexivity|].
  cbn [map_structure flatten].
  induction IH as [|x items Hx _ IHi]; [reflexivity|].
  cbn [map flat_map]. now rewrite map_app, Hx, IHi.
Qed.

Lemma structure_map_structure {A B} (f : A -> B) (n : nest A) :
  structure (map_structure f n) = structure n.
Proof.
  unfold structure.
  induction n as [a|items IH] using nest_induction; [reflexivity|].
  cbn [map_structure]. f_equal. rewrite map_map.
  induction IH as [|x items Hx _ IHi]; [reflexivity|].
  cbn [map]. now rewrite Hx, IHi.
Qed.

Lemma length_tf_repeat {A} (t : list A) n :
  length (tf_repeat t n) = (length t * n)%nat.
Proof.
  unfold tf_repeat. induction t as [|a t IH]; [reflexivity|].
  cbn [flat_map length]. rewrite length_app, repeat_length, IH. lia.
Qed.

Lemma nth_error_repeat {A} (a : A) n j :
  (j < n)%nat -> nth_error (repeat a n) j = Some a.
Proof.
  revert j. induction n as [|n IH]; intros [|j] H; try lia; [reflexivity|].
  cbn. apply IH. lia.
Qed.

(** Element [j] of the repeated tensor is element [j / n] of the
    original. *)
Lemma nth_error_tf_repeat {A} (t : list A) n j :
  (j < length t * n)%nat ->
  nth_error (tf_repeat t n) j = nth_error t (j / n).
Proof.
  unfold tf_repeat. revert j. induction t as [|a t IH]; intros j H; [cbn in H; lia|].
  cbn [flat_map length] in *.
  assert (Hn : (0 < n)%nat) by (destruct n; lia).
  destruct (Nat.lt_ge_cases j n) as [Hj|Hj].
  - rewrite nth_error_app1 by (rewrite repeat_length; lia).
    rewrite Nat.div_small by lia. cbn. now apply nth_error_repeat.
  - rewrite nth_error_app2 by (rewrite repeat_length; lia).
    rewrite repeat_length, IH by lia.
    replace j with ((j - n) + 1 * n)%nat at 2 by lia.
    rewrite Nat.div_add by lia. now rewrite Nat.add_1_r.
Qed.

Lemma or_else_consistent {D} (x : tensor D) :
  consistent x -> or_else (static_dim0 x) (dim0 x) = dim0 x.
Proof.
  unfold consistent, or_else. intros H.
  destruct (static_dim0 x) as [k|]; [|reflexivity].
  specialize (H k eq_refl). subst k. now destruct (Nat.eqb (dim0 x) 0).
Qed.

Lemma Forall2_map_r {A B} (R : A -> B -> Prop) (f : A -> B) (l : list A) :
  (forall a, R a (f a)) -> Forall2 R l (map f l).
Proof. intros H. induction l; constructor; auto. Qed.

(** X14.  [broadcast_info] stretches the info of a sample along its
    trajectory.  For a trajectory whose first tensor has [T] steps at run
    time (its static first dimension may be unknown, [0], or [T]), the
    trajectory is returned as it came, the info keeps its structure, and
    every info tensor of [k] elements becomes one of [k * T] elements whose
    element [j] is element [j / T] of the original; a scalar becomes [T]
    copies of itself, none when [T = 0]. *)
Theorem broadcast_info_stretches_info {A D}
    (info : nest (list A)) (traj : nest (tensor D)) first_elem others :
  flatten traj = first_elem :: others ->
  consistent first_elem ->
  exists info',
    broadcast_info (info, traj) = Returns (info', traj) /\
    structure info' = structure info /\
    Forall2 (fun t t' =>
               length t' = (length t * dim0 first_elem)%nat /\
               (forall j, (j < length t')%nat ->
                          nth_error t' j = nth_error t (j / dim0 first_elem)) /\
               (forall a, t = [a] -> t' = repeat a (dim0 first_elem)))
            (flatten info) (flatten info').
Proof.
  intros Hf Hc. unfold broadcast_info. rewrite Hf, (or_else_consistent _ Hc).
  eexists. split; [reflexivity|]. split; [apply structure_map_structure|].
  rewrite flatten_map_structure. apply Forall2_map_r. intros t.
  split; [apply length_tf_repeat|]. split.
  - intros j Hj. apply nth_error_tf_repeat. now rewrite <- length_tf_repeat.
  - intros a ->. unfold tf_repeat. cbn. apply app_nil_r.
Qed.

(** X16.  [per_sequence_fn] applied to a sample that [broadcast_info]
    returned gives the pair (data, info) in which data is
    [preprocess_sequence] of the stored trajectory, untouched by
    [broadcast_info], and info has the structure of the stored info, each
    tensor stretched by the run-time length of the trajectory. *)
Theorem per_sequence_fn_after_broadcast_info {A D D'}
    (preprocess_sequence : nest (tensor D) -> D')
    (info : nest (list A)) (traj : nest (tensor D)) first_elem others sample :
  flatten traj = first_elem :: others ->
  consistent first_elem ->
  broadcast_info (info, traj) = Returns sample ->
  fst (per_sequence_fn preprocess_sequence sample) = preprocess_sequence traj /\
  structure (snd (per_sequence_fn preprocess_sequence sample)) = structure info /\
  Forall2 (fun t t' => length t' = (length t * dim0 first_elem)%nat)
          (flatten info)
          (flatten (snd (per_sequence_fn preprocess_sequence sample))).
Proof.
  intros Hf Hc. unfold broadcast_info. rewrite Hf, (or_else_consistent _ Hc).
  intros [= <-]. cbn [per_sequence_fn fst snd].
  split; [reflexivity|]. split; [apply structure_map_structure|].
  rewrite flatten_map_structure. apply Forall2_map_r. intros t.
  apply length_tf_repeat.
Qed.

Lemma broadcast_info_stretches_info_witness :
  exists info',
    broadcast_info (Nested [Leaf [7%nat]; Nested [Leaf [1%nat; 2%nat]]],
                    Nested [Leaf (Tensor (Some 3%nat) 3 tt);
                            Leaf (Tensor None 5 tt)])
    = Returns (info', Nested [Leaf (Tensor (Some 3%nat) 3 tt);
                              Leaf (Tensor None 5 tt)]) /\
    structure info'
    = structure (Nested [Leaf [7%nat]; Nested [Leaf [1%nat; 2%nat]]]) /\
    Forall2 (fun t t' =>
               length t' = (length t * 3)%nat /\
               (forall j, (j < length t')%nat ->
                          nth_error t' j = nth_error t (j / 3)) /\
               (forall a, t = [a] -> t' = repeat a 3))
            (flatten (Nested [Leaf [7%nat]; Nested [Leaf [1%nat; 2%nat]]]))
            (flatten info').
Proof.
  apply (broadcast_info_stretches_info
           (Nested [Leaf [7%nat]; Nested [Leaf [1%nat; 2%nat]]])
           (Nested [Leaf (Tensor (Some 3%nat) 3 tt); Leaf (Tensor None 5 tt)])
           (Tensor (Some 3%nat) 3 tt) [Tensor None 5 tt]).
  - reflexivity.
  - intros k H. injection H as <-. reflexivity.
Defined.

Lemma per_sequence_fn_after_broadcast_info_witness :
  fst (per_sequence_fn (fun traj => length (flatten traj))
         (Nested [Leaf [7%nat; 7%nat; 7%nat]],
          Nested [Leaf (Tensor None 3%nat tt)]))
  = 1%nat /\
  structure (snd (per_sequence_fn (fun traj => length (flatten traj))
                    (Nested [Leaf [7%nat; 7%nat; 7%nat]],
                     Nested [Leaf (Tensor None 3%nat tt)])))
  = structure (Nested [Leaf [7%nat]]) /\
  Forall2 (fun t t' => length t' = (length t * 3)%nat)
          (flatten (Nested [Leaf [7%nat]]))
          (flatten (snd (per_sequence_fn (fun traj => length (flatten traj))
                           (Nested [Leaf [7%nat; 7%nat; 7%nat]],
                            Nested [Leaf (Tensor None 3%nat tt)])))).
Proof.
  apply (per_sequence_fn_after_broadcast_info
           (fun traj => length (flatten traj))
           (Nested [Leaf [7%nat]]) (Nested [Leaf (Tensor None 3%nat tt)])
           (Tensor None 3%nat tt) []
           (Nested [Leaf [7%nat; 7%nat; 7%nat]],
            Nested [Leaf (Tensor None 3%nat tt)])).
  - reflexivity.
  - intros k H. discriminate H.
  - reflexivity.
Defined.
